(** * Project-Reveal: the ignore matcher and the definition extractor

    A shallow embedding of [scan_project.py] (class [ProjectScanner]) and of
    the parts of the Python standard library its two core methods call
    ([str.strip], [str.rstrip], [os.path.basename], [os.path.relpath],
    [fnmatch.fnmatch], [ast.walk]), followed by the properties the project
    specification states about them.

    Conventions.
    - A Python [str] is the list of its Unicode code points ([N]).
    - The operating system is POSIX: [os.path] is [posixpath], so
      [os.path.normcase] is the identity and the separator is ['/'].
    - Python exceptions are values of [exn]; a computation that may raise
      returns a [result]. *)

From Stdlib Require Import String Ascii.
From Stdlib Require Import List NArith ZArith Bool Lia.
Import ListNotations.

(* ================================================================== *)
(** * Python strings *)
(* ================================================================== *)

Module PyStr.

Definition char := N.
Definition str := list char.

(** [lit] turns an ASCII literal into a Python string. *)
Definition lit (s : string) : str := map N_of_ascii (list_ascii_of_string s).

Definition ch (a : ascii) : char := N_of_ascii a.

Fixpoint str_eqb (a b : str) : bool :=
  match a, b with
  | [], [] => true
  | x :: a', y :: b' => N.eqb x y && str_eqb a' b'
  | _, _ => false
  end.

(** [c in s] for a one-character [c]. *)
Definition contains (c : char) (s : str) : bool := existsb (N.eqb c) s.

(** [str.isspace] on one code point (CPython's [_PyUnicode_IsWhitespace]). *)
Definition isspace (c : char) : bool :=
  (N.leb 9 c && N.leb c 13) || (N.leb 28 c && N.leb c 32)
  || N.eqb c 133 || N.eqb c 160 || N.eqb c 5760
  || (N.leb 8192 c && N.leb c 8202)
  || N.eqb c 8232 || N.eqb c 8233 || N.eqb c 8239 || N.eqb c 8287
  || N.eqb c 12288.

(** [s.lstrip(...)]: drop the longest prefix of characters satisfying [p]. *)
Fixpoint lstrip_by (p : char -> bool) (s : str) : str :=
  match s with
  | [] => []
  | c :: s' => if p c then lstrip_by p s' else s
  end.

(** [s.rstrip(...)]: drop the longest suffix of characters satisfying [p]. *)
Definition rstrip_by (p : char -> bool) (s : str) : str :=
  rev (lstrip_by p (rev s)).

(** [s.strip()] with no argument strips Unicode whitespace on both sides. *)
Definition strip (s : str) : str := rstrip_by isspace (lstrip_by isspace s).

(** [s.rstrip(chars)]. *)
Definition rstrip (chars : str) (s : str) : str :=
  rstrip_by (fun c => contains c chars) s.

(** [s.lstrip(chars)]. *)
Definition lstrip (chars : str) (s : str) : str :=
  lstrip_by (fun c => contains c chars) s.

(** [s.startswith(prefix)]. *)
Fixpoint startswith (s prefix : str) : bool :=
  match prefix, s with
  | [], _ => true
  | p :: prefix', c :: s' => N.eqb c p && startswith s' prefix'
  | _ :: _, [] => false
  end.

(** [s.endswith(suffix)]. *)
Definition endswith (s suffix : str) : bool := startswith (rev s) (rev suffix).

(** Truthiness of a string: [if s:] holds when [s] is not empty. *)
Definition truthy (s : str) : bool :=
  match s with [] => false | _ :: _ => true end.

(** [s.find(c, start)] for a one-character [c]: the least index [>= start]
    holding [c], or [None] where Python returns [-1]. *)
Fixpoint find_from (c : char) (s : str) (start : nat) : option nat :=
  match s with
  | [] => None
  | x :: s' =>
      match start with
      | 0 => if N.eqb x c then Some 0
             else option_map S (find_from c s' 0)
      | S k => option_map S (find_from c s' k)
      end
  end.

(** [s.rfind(c)] for a one-character [c], as Python returns it: the greatest
    index holding [c], or [-1]. *)
Fixpoint rfind_from (c : char) (s : str) (i last : Z) : Z :=
  match s with
  | [] => last
  | x :: s' => rfind_from c s' (i + 1)%Z (if N.eqb x c then i else last)
  end.

Definition rfind (c : char) (s : str) : Z := rfind_from c s 0%Z (-1)%Z.

(** [s[i:]] for [i >= 0]. *)
Definition slice_from (i : Z) (s : str) : str := skipn (Z.to_nat i) s.

(** [s.split(sep)] for a one-character separator: never the empty list. *)
Fixpoint split (sep : char) (s : str) : list str :=
  match s with
  | [] => [[]]
  | c :: s' =>
      if N.eqb c sep then [] :: split sep s'
      else match split sep s' with
           | [] => [[c]]
           | h :: t => (c :: h) :: t
           end
  end.

(** [sep.join(parts)]. *)
Fixpoint join (sep : str) (parts : list str) : str :=
  match parts with
  | [] => []
  | [p] => p
  | p :: rest => p ++ sep ++ join sep rest
  end.

End PyStr.
Import PyStr.

(* ================================================================== *)
(** * Exceptions and results *)
(* ================================================================== *)

(** The exception classes the modelled operations raise.  Every one of them
    derives from [Exception], so a clause [except Exception] catches each. *)
Inductive exn_class : Type :=
| OSError
| UnicodeDecodeError
| ValueError
| SyntaxError
| RecursionError
| MemoryError.

(** An exception instance: its class and the text [str(e)] gives. *)
Record exn : Type := Exn { exn_cls : exn_class; exn_msg : str }.

Inductive result (A : Type) : Type :=
| Ok (a : A)
| Raise (e : exn).
Arguments Ok {A} a.
Arguments Raise {A} e.

(* ================================================================== *)
(** * [posixpath] *)
(* ================================================================== *)

Module PosixPath.

Definition sep : char := 47%N.
Definition curdir : str := lit ".".
Definition pardir : str := lit "..".

Definition isabs (s : str) : bool := startswith s [sep].

(** One round of the loop of [join(a, *p)]: an absolute part replaces what
    came before; otherwise a separator is inserted unless the path so far
    is empty or already ends in one. *)
Definition join_step (path b : str) : str :=
  if startswith b [sep] then b
  else if negb (truthy path) || endswith path [sep] then path ++ b
  else path ++ [sep] ++ b.

Definition join (a : str) (p : list str) : str := fold_left join_step p a.

(** [basename(p)]: [i = p.rfind(sep) + 1; return p[i:]]. *)
Definition basename (p : str) : str := slice_from (rfind sep p + 1) p.

(** [initial_slashes] of [normpath]: POSIX keeps exactly two leading
    slashes and folds three or more into one. *)
Definition initial_slashes (path : str) : nat :=
  if startswith path [sep] then
    if startswith path [sep; sep] && negb (startswith path [sep; sep; sep])
    then 2 else 1
  else 0.

(** One round of the component loop of [normpath]. *)
Definition norm_step (initial : nat) (new_comps : list str) (comp : str)
  : list str :=
  if str_eqb comp [] || str_eqb comp curdir then new_comps
  else if negb (str_eqb comp pardir)
          || (Nat.eqb initial 0 && negb (existsb (fun _ => true) new_comps))
          || (existsb (fun _ => true) new_comps
              && str_eqb (last new_comps []) pardir)
       then new_comps ++ [comp]
       else removelast new_comps.

Definition normpath (path : str) : str :=
  if negb (truthy path) then curdir
  else
    let initial := initial_slashes path in
    let comps := fold_left (norm_step initial) (split sep path) [] in
    let path' := repeat sep initial ++ PyStr.join [sep] comps in
    if truthy path' then path' else curdir.

(** [abspath(path)]; [cwd] is what [os.getcwd()] returns. *)
Definition abspath (cwd path : str) : str :=
  normpath (if isabs path then path else join cwd [path]).

(** [commonprefix([a, b])] on two lists of components. *)
Fixpoint commonprefix (a b : list str) : list str :=
  match a, b with
  | x :: a', y :: b' => if str_eqb x y then x :: commonprefix a' b' else []
  | _, _ => []
  end.

(** [relpath(path, start)]: raises [ValueError] on an empty [path]. *)
Definition relpath (cwd path start : str) : result str :=
  if negb (truthy path) then Raise (Exn ValueError (lit "no path specified"))
  else
    let start_list := filter truthy (split sep (abspath cwd start)) in
    let path_list := filter truthy (split sep (abspath cwd path)) in
    let i := length (commonprefix start_list path_list) in
    let rel_list := repeat pardir (length start_list - i) ++ skipn i path_list in
    match rel_list with
    | [] => Ok curdir
    | a :: p => Ok (join a p)
    end.

End PosixPath.

(* ================================================================== *)
(** * [fnmatch] *)
(* ================================================================== *)

Module Fnmatch.

(** What one element of a regular-expression character set matches. *)
Inductive set_item : Type :=
| Single (c : char)
| Range (lo hi : char).

(** The pieces [translate] appends to [res]: [STAR]; ['.'] (with the [s]
    flag, any character); an escaped literal; a set ['[...]'] or its
    negation ['[^...]']; and ['(?!)'], which matches nothing. *)
Inductive token : Type :=
| STAR
| AnyChar
| Literal (c : char)
| CharSet (negated : bool) (items : list set_item)
| Never.

Definition star : char := 42%N.
Definition question : char := 63%N.
Definition lbracket : char := 91%N.
Definition rbracket : char := 93%N.
Definition bang : char := 33%N.
Definition hyphen : char := 45%N.

(** [s[i:k]]. *)
Definition slice (s : str) (i k : nat) : str := firstn (k - i) (skipn i s).

Definition char_at (s : str) (i : nat) (c : char) : bool :=
  match nth_error s i with
  | Some x => N.eqb x c
  | None => false
  end.

(** After an opening bracket, with [rest = pat[i:]]: the offset [j - i] of
    the bracket that closes the set, or [None] when the scan reaches the
    end of the pattern ([j >= n]). *)
Definition class_end (rest : str) : option nat :=
  let j := 0 in
  let j := if char_at rest j bang then j + 1 else j in
  let j := if char_at rest j rbracket then j + 1 else j in
  find_from rbracket rest j.

(** The loop that cuts [stuff] at the hyphens that make ranges; it returns
    the chunks and the final [i].  Every round moves [k] forward by three
    at least, so [length stuff] rounds are enough. *)
Fixpoint chunk_loop (fuel : nat) (stuff : str) (i k : nat) (chunks : list str)
  : list str * nat :=
  match fuel with
  | 0 => (chunks, i)
  | S fuel' =>
      match find_from hyphen stuff k with
      | None => (chunks, i)
      | Some k' =>
          chunk_loop fuel' stuff (k' + 1) (k' + 3) (chunks ++ [slice stuff i k'])
      end
  end.

(** [chunks[-1] += '-']. *)
Definition append_to_last (chunks : list str) (c : char) : list str :=
  match rev chunks with
  | [] => []
  | l :: front => rev front ++ [l ++ [c]]
  end.

(** The downward loop that removes empty ranges: where the last character
    of a chunk is greater than the first of the next, the two characters
    are dropped and the chunks glued. *)
Fixpoint remove_empty_ranges (chunks : list str) : list str :=
  match chunks with
  | [] => []
  | c :: rest =>
      match remove_empty_ranges rest with
      | [] => [c]
      | d :: rest' =>
          if N.ltb (hd 0%N d) (last c 0%N)
          then (removelast c ++ tl d) :: rest'
          else c :: d :: rest'
      end
  end.

Definition chunks_of (stuff : str) : list str :=
  if negb (contains hyphen stuff) then [stuff]
  else
    let k := if char_at stuff 0 bang then 2 else 1 in
    let '(chunks, i) := chunk_loop (S (length stuff)) stuff 0 k [] in
    let chunk := slice stuff i (length stuff) in
    let chunks := if truthy chunk then chunks ++ [chunk]
                  else append_to_last chunks hyphen in
    remove_empty_ranges chunks.

(** The text of the set is the chunks joined by hyphens, every character
    inside a chunk escaped where the regular-expression syntax needs it:
    [Chr c] is a character standing for itself, [Dash] a joining hyphen. *)
Inductive atom : Type :=
| Chr (c : char)
| Dash.

Fixpoint atoms_of (chunks : list str) : list atom :=
  match chunks with
  | [] => []
  | [c] => map Chr c
  | c :: rest => map Chr c ++ Dash :: atoms_of rest
  end.

(** How the regular-expression parser reads the text of a set: [a-b] is a
    range, a hyphen with nothing to join is a plain hyphen. *)
Fixpoint items_of (atoms : list atom) : list set_item :=
  match atoms with
  | [] => []
  | Dash :: rest => Single hyphen :: items_of rest
  | Chr a :: rest =>
      match rest with
      | Dash :: Chr b :: rest' => Range a b :: items_of rest'
      | _ => Single a :: items_of rest
      end
  end.

(** The token for a bracket expression whose inside is [stuff]: nothing
    left gives ['(?!)'], a lone [!] gives ['.'], a leading [!] negates. *)
Definition class_token (stuff : str) : token :=
  match atoms_of (chunks_of stuff) with
  | [] => Never
  | Chr c :: atoms =>
      if N.eqb c bang then
        match atoms with
        | [] => AnyChar
        | _ => CharSet true (items_of atoms)
        end
      else CharSet false (items_of (Chr c :: atoms))
  | atoms => CharSet false (items_of atoms)
  end.

Definition is_STAR (t : token) : bool :=
  match t with STAR => true | _ => false end.

(** [add(STAR)] unless the last piece is already [STAR]. *)
Definition add_star (res : list token) : list token :=
  match rev res with
  | t :: _ => if is_STAR t then res else res ++ [STAR]
  | [] => res ++ [STAR]
  end.

(** The main loop of [translate].  [skip] counts the characters the loop
    jumps over after a bracket expression ([i = j + 1]). *)
Fixpoint translate_loop (pat : str) (skip : nat) (res : list token)
  : list token :=
  match pat with
  | [] => res
  | c :: rest =>
      match skip with
      | S skip' => translate_loop rest skip' res
      | 0 =>
          if N.eqb c star then translate_loop rest 0 (add_star res)
          else if N.eqb c question then translate_loop rest 0 (res ++ [AnyChar])
          else if N.eqb c lbracket then
            match class_end rest with
            | None => translate_loop rest 0 (res ++ [Literal lbracket])
            | Some j =>
                translate_loop rest (j + 1) (res ++ [class_token (firstn j rest)])
            end
          else translate_loop rest 0 (res ++ [Literal c])
      end
  end.

Definition translate (pat : str) : list token := translate_loop pat 0 [].

Definition item_matches (c : char) (it : set_item) : bool :=
  match it with
  | Single x => N.eqb c x
  | Range lo hi => N.leb lo c && N.leb c hi
  end.

(** Whether a piece other than [STAR] matches the character [c]. *)
Definition token_matches (t : token) (c : char) : bool :=
  match t with
  | STAR => true
  | AnyChar => true
  | Literal x => N.eqb c x
  | CharSet negated items => xorb negated (existsb (item_matches c) items)
  | Never => false
  end.

(** [re.compile(translate(pat)).match(name) is not None]: the expression
    is anchored at both ends, and [STAR] stands for any run of characters.
    (The atomic groups [translate] builds for inner stars are a matching
    strategy; they accept the same strings.) *)
Fixpoint matches (ts : list token) (name : str) {struct ts} : bool :=
  match ts with
  | [] => negb (truthy name)
  | t :: ts' =>
      if is_STAR t then
        (fix skip_run (s : str) : bool :=
           matches ts' s
           || match s with
              | [] => false
              | _ :: s' => skip_run s'
              end) name
      else
        match name with
        | [] => false
        | c :: name' => token_matches t c && matches ts' name'
        end
  end.

Definition fnmatchcase (name pat : str) : bool := matches (translate pat) name.

(** [fnmatch(name, pat)]: [os.path.normcase] is the identity on POSIX. *)
Definition fnmatch (name pat : str) : bool := fnmatchcase name pat.

End Fnmatch.

(* ================================================================== *)
(** * [ast]: the syntax tree as the extractor sees it *)
(* ================================================================== *)

Module PyAst.

(** The class of a node.  The three definition classes carry their [name]
    field; every other class ([Module], [arguments], [Pass], [Expr], ...)
    is [Other] with the name of the class. *)
Inductive node_class : Type :=
| FunctionDef (name : str)
| AsyncFunctionDef (name : str)
| ClassDef (name : str)
| Other (cls : str).

(** A node: its class and its child nodes, in the order
    [ast.iter_child_nodes] yields them. *)
Unset Elimination Schemes.
Inductive node : Type :=
| Node (cls : node_class) (children : list node).
Set Elimination Schemes.

Definition node_cls (n : node) : node_class :=
  match n with Node c _ => c end.

Definition iter_child_nodes (n : node) : list node :=
  match n with Node _ children => children end.

(** Number of nodes of a tree. *)
Fixpoint size (n : node) : nat :=
  match n with
  | Node _ children => S (list_sum (map size children))
  end.

(** The loop of [ast.walk]: [todo] is the deque; each round pops the node
    on the left, appends its children on the right and yields it.  One unit
    of [fuel] is spent per node yielded. *)
Fixpoint walk_loop (fuel : nat) (todo : list node) : list node :=
  match fuel, todo with
  | S fuel', n :: rest => n :: walk_loop fuel' (rest ++ iter_child_nodes n)
  | _, _ => []
  end.

Definition walk (n : node) : list node := walk_loop (size n) [n].

(** [descendant n t]: [n] is [t] or lies below it. *)
Inductive descendant (n : node) : node -> Prop :=
| desc_self : descendant n n
| desc_child : forall t c,
    In c (iter_child_nodes t) -> descendant n c -> descendant n t.

End PyAst.
Import PyAst.

(* ================================================================== *)
(** * The definitions of the specification *)
(* ================================================================== *)

(** The record the specification calls Definition, written from its words
    (data model, section 3), to compare with what the code emits. *)
Module Spec.

Inductive kind : Type := Function | AsyncFunction | Class.
Inductive visibility : Type := Public | Private.

Record definition : Type :=
  { def_kind : kind; def_name : str; def_visibility : visibility }.

(** A name beginning with an underscore is Private, else Public. *)
Definition visibility_of (name : str) : visibility :=
  if startswith name (lit "_") then Private else Public.

(** The Definition the specification assigns to a node, if any. *)
Definition definition_of (n : node) : option definition :=
  match node_cls n with
  | FunctionDef name => Some {| def_kind := Function; def_name := name;
                                def_visibility := visibility_of name |}
  | AsyncFunctionDef name => Some {| def_kind := AsyncFunction; def_name := name;
                                     def_visibility := visibility_of name |}
  | ClassDef name => Some {| def_kind := Class; def_name := name;
                             def_visibility := visibility_of name |}
  | Other _ => None
  end.

End Spec.

(* ================================================================== *)
(** * [ProjectScanner] *)
(* ================================================================== *)

(** ** The world the scanner runs in *)

(** How the iteration over an open text file ends: at the end of the file,
    or with an exception (a read error, undecodable bytes). *)
Inductive read_end : Type :=
| Eof
| ReadFails (e : exn).

(** What the file system holds at a path: nothing; a file that cannot be
    opened; or a file that opens and yields [lines] (each with its line
    terminator, as [for line in f] gives them) and then ends as [fin]
    says. *)
Inductive file_state : Type :=
| NoFile
| OpenFails (e : exn)
| Opens (lines : list str) (fin : read_end).

(** What the program has done so far: the lines printed on the console and
    the texts handed to [ast.parse]. *)
Record world : Type :=
  { console : list str; parsed : list str }.

(** A computation reads and extends the world and returns or raises. *)
Definition M (A : Type) : Type := world -> result A * world.

Definition ret {A : Type} (a : A) : M A := fun w => (Ok a, w).

Definition bind {A B : Type} (m : M A) (k : A -> M B) : M B :=
  fun w =>
    match m w with
    | (Ok a, w') => k a w'
    | (Raise e, w') => (Raise e, w')
    end.

(** [try: body / except Exception as e: handler e]. *)
Definition try_except {A : Type} (body : M A) (handler : exn -> M A) : M A :=
  fun w =>
    match body w with
    | (Ok a, w') => (Ok a, w')
    | (Raise e, w') => handler e w'
    end.

Notation "x <- m ;; k" := (bind m (fun x => k))
  (at level 61, m at next level, right associativity).
Notation "m ;;; k" := (bind m (fun _ => k))
  (at level 61, right associativity).

(** [print(message)]. *)
Definition print (message : str) : M unit :=
  fun w => (Ok tt, {| console := console w ++ [message]; parsed := parsed w |}).

(** How a block of statements ends: through a [return], or by running off
    its end with the local list as it stands. *)
Inductive block_end (A : Type) : Type :=
| Returns (v : A)
| FallsThrough (local : A).
Arguments Returns {A} v.
Arguments FallsThrough {A} local.

(** ** Constants of the source *)

(** The built-in patterns of [_load_gitignore]. *)
Definition default_patterns : list str :=
  [ lit ".git"; lit ".idea"; lit ".vscode"; lit "__pycache__";
    lit "*.pyc"; lit "*.pyo"; lit ".DS_Store"; lit "venv"; lit "env";
    lit ".env" ].

(** The text printed before [str(e)] when the ignore file cannot be read:
    a warning sign (U+26A0 U+FE0F) and a message naming [.gitignore]. *)
Definition warning_prefix : str :=
  [9888%N; 65039%N; 32%N; 35835%N; 21462%N] ++ lit " .gitignore "
  ++ [22833%N; 36133%N] ++ lit ": ".

(** The markers of the emitted entries: a lock (U+1F512) for a private
    function, a bolt (U+26A1) for a public one, a package (U+1F4E6) for a
    class; each followed by a space. *)
Definition lock_marker : str := [128274%N; 32%N].
Definition bolt_marker : str := [9889%N; 32%N].
Definition package_marker : str := [128230%N; 32%N].

(** ** The object *)

Record ProjectScanner : Type :=
  { root_path : str;
    output_file : str;
    ignore_patterns : list str }.

Section Scanner.

(** [os.getcwd()], the file system, and [ast.parse] (the parser of the
    Python standard library, which either returns the tree of a text or
    raises). *)
Variable cwd : str.
Variable fs : str -> file_state.
Variable parser : str -> result node.

(** [open(path)] on a missing file raises [FileNotFoundError], a subclass
    of [OSError]. *)
Definition no_such_file : exn := Exn OSError (lit "No such file or directory").

(** What [f.read()] gives for a file in state [st], or the exception that
    opening or reading it raises. *)
Definition file_content (st : file_state) : result str :=
  match st with
  | NoFile => Raise no_such_file
  | OpenFails e => Raise e
  | Opens lines Eof => Ok (concat lines)
  | Opens _ (ReadFails e) => Raise e
  end.

(** [os.path.exists(path)]. *)
Definition path_exists (path : str) : bool :=
  match fs path with
  | NoFile => false
  | _ => true
  end.

(** [with open(path) as f: for line in f: acc = body acc line]: the lines
    are consumed one at a time, so what the body did before a failure
    stays done.  The result is the accumulator and the exception that
    ended the iteration, if any. *)
Definition for_each_line {A : Type} (path : str) (body : A -> str -> A)
  (acc : A) : A * option exn :=
  match fs path with
  | NoFile => (acc, Some no_such_file)
  | OpenFails e => (acc, Some e)
  | Opens lines Eof => (fold_left body lines acc, None)
  | Opens lines (ReadFails e) => (fold_left body lines acc, Some e)
  end.

(** [with open(path, errors="ignore") as f: content = f.read()]: bytes
    that do not decode are dropped, so only opening or reading can fail. *)
Definition read_text (path : str) : M str :=
  fun w => (file_content (fs path), w).

(** [ast.parse(content)], recorded in the world. *)
Definition ast_parse (content : str) : M node :=
  fun w => (parser content,
            {| console := console w; parsed := parsed w ++ [content] |}).

(** *** [_load_gitignore] *)

(** The body of the loop over the lines of the ignore file. *)
Definition gitignore_line (patterns : list str) (line : str) : list str :=
  let line := strip line in
  if truthy line && negb (startswith line (lit "#"))
  then patterns ++ [rstrip (lit "/") line]
  else patterns.

Definition _load_gitignore (root : str) : M (list str) :=
  let patterns := default_patterns in
  let gitignore_path := PosixPath.join root [lit ".gitignore"] in
  if path_exists gitignore_path then
    match for_each_line gitignore_path gitignore_line patterns with
    | (patterns, None) => ret patterns
    | (patterns, Some e) =>
        print (warning_prefix ++ exn_msg e) ;;;
        ret patterns
    end
  else ret patterns.

(** *** [__init__] *)

Definition __init__ (root output_filename : str) : M ProjectScanner :=
  let root := PosixPath.abspath cwd root in
  patterns <- _load_gitignore root ;;
  ret {| root_path := root;
         output_file := output_filename;
         ignore_patterns := patterns |}.

(** *** [_is_ignored] *)

(** The loop over [self.ignore_patterns]. *)
Fixpoint ignore_loop (name rel_path : str) (is_dir : bool)
  (patterns : list str) : bool :=
  match patterns with
  | [] => false
  | pattern :: rest =>
      if Fnmatch.fnmatch name pattern then true
      else if Fnmatch.fnmatch rel_path pattern then true
      else if is_dir && Fnmatch.fnmatch name (rstrip (lit "/") pattern) then true
      else ignore_loop name rel_path is_dir rest
  end.

Definition _is_ignored (self : ProjectScanner) (path : str) (is_dir : bool)
  : result bool :=
  let name := PosixPath.basename path in
  match PosixPath.relpath cwd path (root_path self) with
  | Raise e => Raise e
  | Ok rel_path =>
      if str_eqb rel_path (lit ".") then Ok false
      else Ok (ignore_loop name rel_path is_dir (ignore_patterns self))
  end.

(** *** [_get_definitions] *)

(** The body of the loop over the nodes of the tree. *)
Definition visit (definitions : list str) (n : node) : list str :=
  match node_cls n with
  | FunctionDef name | AsyncFunctionDef name =>
      let prefix := if startswith name (lit "_") then lock_marker
                    else bolt_marker in
      definitions ++ [prefix ++ lit "def " ++ name]
  | ClassDef name =>
      definitions ++ [package_marker ++ lit "class " ++ name]
  | Other _ => definitions
  end.

Definition _get_definitions (file_path : str) : M (list str) :=
  let definitions := [] in
  r <- try_except
         (content <- read_text file_path ;;
          if negb (truthy (strip content)) then ret (Returns [])
          else
            tree <- ast_parse content ;;
            ret (FallsThrough (fold_left visit (walk tree) definitions)))
         (fun _ => ret (FallsThrough definitions)) ;;
  match r with
  | Returns v => ret v
  | FallsThrough definitions => ret definitions
  end.

End Scanner.

(** ** Helpers for the statements *)

(** The lines an ignore file yields before the iteration ends. *)
Definition lines_yielded (st : file_state) : list str :=
  match st with
  | Opens lines _ => lines
  | _ => []
  end.

(** The exception that ends the reading of a file that exists, if one
    does: the file does not open, or the iteration over it fails. *)
Definition failure_of (st : file_state) : option exn :=
  match st with
  | NoFile => None
  | OpenFails e => Some e
  | Opens _ (ReadFails e) => Some e
  | Opens _ Eof => None
  end.

(** A file system holding the listed files and nothing else. *)
Fixpoint files_fs (files : list (str * file_state)) (p : str) : file_state :=
  match files with
  | [] => NoFile
  | (path, st) :: rest => if str_eqb p path then st else files_fs rest p
  end.

(** The path [_load_gitignore] reads for a scanner made from [root]. *)
Definition gitignore_path_of (cwd root : str) : str :=
  PosixPath.join (PosixPath.abspath cwd root) [lit ".gitignore"].

(** A pattern that [rstrip('/')] leaves as it is. *)
Definition no_trailing_sep (pattern : str) : Prop :=
  rstrip (lit "/") pattern = pattern.

(** A pattern with none of the characters [fnmatch] treats specially. *)
Definition plain (pat : str) : bool :=
  forallb (fun c => negb (N.eqb c Fnmatch.star || N.eqb c Fnmatch.question
                          || N.eqb c Fnmatch.lbracket)) pat.

(** The entry [visit] appends for a node, if it appends one. *)
Definition entry_of (n : node) : list str := visit [] n.

(** Number of nodes in the trees of a queue. *)
Definition total (todo : list node) : nat := list_sum (map size todo).

(** The world before anything was printed or parsed. *)
Definition initial_world : world := {| console := []; parsed := [] |}.

(** The marker the code puts before a function of a given visibility. *)
Definition marker_of (v : Spec.visibility) : str :=
  match v with
  | Spec.Private => lock_marker
  | Spec.Public => bolt_marker
  end.

(** ** Sample inputs *)

(** A few source texts with the trees [ast.parse] builds for them (or the
    error it raises), and the paths of a small project. *)
Module Sample.

Definition nl : str := [10%N].

Definition module_ (body : list node) : node := Node (Other (lit "Module")) body.
Definition arguments_ : node := Node (Other (lit "arguments")) [].
Definition pass_ : node := Node (Other (lit "Pass")) [].

Definition async_text : str := lit "async def f(): pass" ++ nl.
Definition plain_text : str := lit "def f(): pass" ++ nl.
Definition hidden_class_text : str := lit "class _Hidden: pass" ++ nl.
Definition helper_text : str :=
  lit "def _helper(): pass" ++ nl ++ lit "def run(): pass" ++ nl.
Definition broken_text : str := lit "print((1)" ++ nl.
Definition blank_text : str := lit "  " ++ nl ++ [9%N] ++ nl.

Definition async_tree : node :=
  module_ [Node (AsyncFunctionDef (lit "f")) [arguments_; pass_]].
Definition plain_tree : node :=
  module_ [Node (FunctionDef (lit "f")) [arguments_; pass_]].
Definition hidden_class_tree : node :=
  module_ [Node (ClassDef (lit "_Hidden")) [pass_]].
Definition helper_tree : node :=
  module_ [Node (FunctionDef (lit "_helper")) [arguments_; pass_];
           Node (FunctionDef (lit "run")) [arguments_; pass_]].

Definition never_closed : exn :=
  Exn SyntaxError (lit "'(' was never closed (<unknown>, line 1)").

Definition parser (content : str) : result node :=
  if str_eqb content async_text then Ok async_tree
  else if str_eqb content plain_text then Ok plain_tree
  else if str_eqb content hidden_class_text then Ok hidden_class_tree
  else if str_eqb content helper_text then Ok helper_tree
  else Raise never_closed.

Definition sources : str -> file_state :=
  files_fs [ (lit "/proj/a.py", Opens [async_text] Eof);
             (lit "/proj/b.py", Opens [plain_text] Eof);
             (lit "/proj/c.py", Opens [hidden_class_text] Eof);
             (lit "/proj/d.py", Opens [lit "def _helper(): pass" ++ nl;
                                       lit "def run(): pass" ++ nl] Eof);
             (lit "/proj/e.py", Opens [broken_text] Eof);
             (lit "/proj/f.py", Opens [lit "  " ++ nl; [9%N] ++ nl] Eof) ].

Definition cwd : str := lit "/home/user".
Definition root : str := lit "/proj".
Definition out : str := lit "project_structure.txt".

(** A project whose ignore file holds the given lines. *)
Definition project (lines : list str) (fin : read_end) : str -> file_state :=
  files_fs [ (lit "/proj/.gitignore", Opens lines fin) ].

Definition bad_byte : exn :=
  Exn UnicodeDecodeError
      (lit "'utf-8' codec can't decode byte 0xff in position 1: invalid start byte").

End Sample.

(* ================================================================== *)
(** * The traversal: [log], [scan] and the main block *)
(* ================================================================== *)

(** ** More of [str] *)

(** [s.count(c)] for a one-character [c]. *)
Fixpoint count_char (c : char) (s : str) : nat :=
  match s with
  | [] => 0
  | x :: s' => (if N.eqb x c then 1 else 0) + count_char c s'
  end.

(** The scan of [s.replace(old, new)] for a non-empty [old]: occurrences
    are taken from the left and do not overlap.  Every round consumes a
    character, so [length s] rounds are enough. *)
Fixpoint replace_loop (fuel : nat) (old new s : str) : str :=
  match fuel with
  | 0 => s
  | S fuel' =>
      match s with
      | [] => []
      | c :: s' =>
          if startswith s old
          then new ++ replace_loop fuel' old new (skipn (length old) s)
          else c :: replace_loop fuel' old new s'
      end
  end.

(** [s.replace(old, new)]; with an empty [old], [new] goes before every
    character and at the end. *)
Definition replace (old new s : str) : str :=
  match old with
  | [] => new ++ flat_map (fun c => c :: new) s
  | _ :: _ => replace_loop (length s) old new s
  end.

(** [s * n]. *)
Definition str_mul (s : str) (n : nat) : str := concat (repeat s n).

(** ** Directories *)

(** A directory as [os.walk] finds it: its sub-directories by name, each
    with what lies below, and the names of its other entries.  [NotWalked]
    stands for what [os.walk] lists but yields nothing for: a directory
    [scandir] cannot read, or a symbolic link to a directory. *)
Unset Elimination Schemes.
Inductive dtree : Type :=
| NotWalked
| Dir (dirs : list (str * dtree)) (files : list str).
Set Elimination Schemes.

(** ** The state of a scan *)

(** [self.file_handle]: [None], an open file, or a file closed by the end
    of its [with] block. *)
Inductive handle : Type :=
| Unset
| Opened
| Closed.

(** The world, the handle, and the text of the output file. *)
Record scan_state : Type :=
  { sw : world;
    file_handle : handle;
    output : str }.

Definition Scan (A : Type) : Type := scan_state -> result A * scan_state.

Definition sret {A : Type} (a : A) : Scan A := fun st => (Ok a, st).

Definition sbind {A B : Type} (m : Scan A) (k : A -> Scan B) : Scan B :=
  fun st =>
    match m st with
    | (Ok a, st') => k a st'
    | (Raise e, st') => (Raise e, st')
    end.

Notation "x <~ m ;; k" := (sbind m (fun x => k))
  (at level 61, m at next level, right associativity).
Notation "m ;;~ k" := (sbind m (fun _ => k))
  (at level 61, right associativity).

(** A computation on the world, run inside a scan. *)
Definition lift {A : Type} (m : M A) : Scan A :=
  fun st =>
    let '(r, w') := m (sw st) in
    (r, {| sw := w'; file_handle := file_handle st; output := output st |}).

(** A value or an exception, as a computation. *)
Definition of_result {A : Type} (r : result A) : Scan A := fun st => (r, st).

(** [for x in xs: body x]. *)
Fixpoint for_each {A : Type} (body : A -> Scan unit) (xs : list A) : Scan unit :=
  match xs with
  | [] => sret tt
  | x :: rest => body x ;;~ for_each body rest
  end.

(** [f.write(text)] on the handle of the output file. *)
Definition closed_file : exn :=
  Exn ValueError (lit "I/O operation on closed file.").

(** ** Constants of [scan] *)

(** The texts before the root and before the output name in the two
    opening lines, the text of the closing line, and the marks of a
    folder (U+1F4C2), of a file (U+1F4C4) and of a definition. *)
Definition start_banner : str :=
  [128640%N; 32%N; 24320%N; 22987%N; 25195%N; 25551%N] ++ lit ": ".
Definition output_banner : str :=
  [128196%N; 32%N; 32467%N; 26524%N; 23558%N; 20445%N; 23384%N; 33267%N]
  ++ lit ": ".
Definition done_banner : str :=
  [10%N; 9989%N; 32%N; 25195%N; 25551%N; 23436%N; 25104%N] ++ lit "! "
  ++ [32467%N; 26524%N; 24050%N; 20445%N; 23384%N; 33267%N; 32%N].
Definition folder_mark : str := [128194%N; 32%N].
Definition file_mark : str := [128196%N; 32%N].
Definition definition_mark : str := [9492%N; 9472%N; 9472%N; 32%N].

Section Traversal.

Variable cwd : str.
Variable fs : str -> file_state.
Variable parser : str -> result node.

(** What [os.walk] finds at a path, and the exception that opening a file
    for writing raises, if it does. *)
Variable dir_at : str -> dtree.
Variable open_error : str -> option exn.

(** *** [log] *)

Definition log (message : str) : Scan unit :=
  lift (print message) ;;~
  fun st =>
    match file_handle st with
    | Unset => (Ok tt, st)
    | Opened =>
        (Ok tt, {| sw := sw st; file_handle := Opened;
                   output := output st ++ message ++ [10%N] |})
    | Closed => (Raise closed_file, st)
    end.

(** *** [os.walk], top down *)

(** [for dirname in dirs: yield from walk(join(top, dirname))], over the
    entries that the consumer left in [dirs]. *)
Fixpoint descend (walk_into : str -> dtree -> Scan unit) (top : str)
  (kept : list str) (entries : list (str * dtree)) : Scan unit :=
  match entries with
  | [] => sret tt
  | (d, sub) :: rest =>
      (if existsb (str_eqb d) kept
       then walk_into (PosixPath.join top [d]) sub
       else sret tt) ;;~
      descend walk_into top kept rest
  end.

(** [for root, dirs, files in os.walk(top): dirs[:] = body root dirs files].
    The body runs when a directory is yielded and returns the names it
    leaves in [dirs]; the walk then goes into those, in order.  The body
    of [scan] only removes names. *)
Fixpoint os_walk (body : str -> list str -> list str -> Scan (list str))
  (top : str) (t : dtree) {struct t} : Scan unit :=
  match t with
  | NotWalked => sret tt
  | Dir dirs files =>
      kept <~ body top (map fst dirs) files ;;
      descend (fun top' sub => os_walk body top' sub) top kept dirs
  end.

(** *** [scan] *)

(** [[d for d in dirs if not self._is_ignored(join(root, d), is_dir=True)]]. *)
Fixpoint filter_dirs (self : ProjectScanner) (root : str) (dirs : list str)
  : Scan (list str) :=
  match dirs with
  | [] => sret []
  | d :: rest =>
      ignored <~ of_result
                   (_is_ignored cwd self (PosixPath.join root [d]) true) ;;
      kept <~ filter_dirs self root rest ;;
      sret (if ignored then kept else d :: kept)
  end.

(** The body of the loop over [files]. *)
Definition scan_file (self : ProjectScanner) (root : str) (level : nat)
  (file : str) : Scan unit :=
  let full_path := PosixPath.join root [file] in
  ignored <~ of_result (_is_ignored cwd self full_path false) ;;
  if ignored then sret tt
  else if endswith file (lit ".py") then
    let subindent := str_mul (str_mul (lit " ") 4) (level + 1) in
    log (subindent ++ file_mark ++ file) ;;~
    defs <~ lift (_get_definitions fs parser full_path) ;;
    let func_indent := str_mul (str_mul (lit " ") 4) (level + 2) in
    for_each (fun d => log (func_indent ++ definition_mark ++ d)) defs
  else sret tt.

(** [level = root.replace(self.root_path, '').count(os.sep)]. *)
Definition level_of (self : ProjectScanner) (root : str) : nat :=
  count_char PosixPath.sep (replace (root_path self) [] root).

(** The body of the loop over [os.walk]. *)
Definition scan_dir (self : ProjectScanner) (root : str) (dirs files : list str)
  : Scan (list str) :=
  kept <~ filter_dirs self root dirs ;;
  let level := level_of self root in
  let indent := str_mul (str_mul (lit " ") 4) level in
  let folder_name := PosixPath.basename root in
  (if negb (str_eqb root (root_path self))
   then log (indent ++ folder_mark ++ folder_name ++ lit "/")
   else sret tt) ;;~
  for_each (scan_file self root level) files ;;~
  sret kept.

(** [with open(self.output_file, 'w') as f: body]: opening truncates the
    file; the file is closed when the block ends, also by an exception. *)
Definition with_output (path : str) (body : Scan unit) : Scan unit :=
  fun st =>
    match open_error path with
    | Some e => (Raise e, st)
    | None =>
        let '(r, st') :=
          body {| sw := sw st; file_handle := Opened; output := [] |} in
        (r, {| sw := sw st'; file_handle := Closed; output := output st' |})
    end.

Definition scan (self : ProjectScanner) : Scan unit :=
  lift (print (start_banner ++ root_path self)) ;;~
  lift (print (output_banner ++ output_file self ++ [10%N])) ;;~
  with_output (output_file self)
    (log (lit "Project Tree for: " ++ PosixPath.basename (root_path self)) ;;~
     log (str_mul (lit "=") 40) ;;~
     os_walk (scan_dir self) (root_path self) (dir_at (root_path self))) ;;~
  lift (print (done_banner ++ output_file self)).

(** *** The main block *)


End Traversal.

(** A scan starts in a world with no handle set ([__init__] sets
    [file_handle] to [None]). *)
Definition initial_scan_state (w : world) (on_disk : str) : scan_state :=
  {| sw := w; file_handle := Unset; output := on_disk |}.

(** ** Helpers for the statements about the traversal *)

(** One line of the output file. *)
Definition line_text (line : str) : str := line ++ [10%N].



(** Whether [old] occurs in [s]. *)
Fixpoint occurs (old s : str) : bool :=
  match s with
  | [] => startswith [] old
  | _ :: s' => startswith s old || occurs old s'
  end.

(** The three tests of the loop of [_is_ignored] on one pattern. *)
Definition pattern_rule (name rel_path : str) (is_dir : bool) (pattern : str)
  : bool :=
  Fnmatch.fnmatch name pattern
  || Fnmatch.fnmatch rel_path pattern
  || (is_dir && Fnmatch.fnmatch name (rstrip (lit "/") pattern)).

(** Whether a node is a function, asynchronous function or class
    definition, and how many such nodes a tree holds. *)
Definition is_definition (n : node) : bool :=
  match node_cls n with
  | Other _ => false
  | _ => true
  end.

Fixpoint count_definitions (n : node) : nat :=
  match n with
  | Node _ children =>
      (if is_definition n then 1 else 0)
      + list_sum (map count_definitions children)
  end.

(** Two directory trees found at [top] that are alike except below the
    sub-directories the scanner ignores: same files, same sub-directory
    names in the same order, and below each name either an ignored path
    or, again, trees alike in this sense. *)
Unset Elimination Schemes.
Inductive same_outside_ignored (cwd : str) (self : ProjectScanner)
  : str -> dtree -> dtree -> Prop :=
| soi_not_walked : forall top,
    same_outside_ignored cwd self top NotWalked NotWalked
| soi_dir : forall top dirs dirs' files,
    Forall2
      (fun e e' =>
         fst e = fst e'
         /\ (_is_ignored cwd self (PosixPath.join top [fst e]) true = Ok true
             \/ same_outside_ignored cwd self (PosixPath.join top [fst e])
                  (snd e) (snd e')))
      dirs dirs' ->
    same_outside_ignored cwd self top (Dir dirs files) (Dir dirs' files).
Set Elimination Schemes.

(** A file the scan passes over: ignored, or not named [*.py]. *)
Definition passed_over (cwd : str) (self : ProjectScanner) (root file : str)
  : Prop :=
  _is_ignored cwd self (PosixPath.join root [file]) false = Ok true
  \/ (_is_ignored cwd self (PosixPath.join root [file]) false = Ok false
      /\ endswith file (lit ".py") = false).

(** A scanner with the built-in patterns only. *)
Definition default_scanner (root out : str) : ProjectScanner :=
  {| root_path := root; output_file := out;
     ignore_patterns := default_patterns |}.

(** An absolute path in normal form: one or two leading separators, then
    the components joined by separators. *)
Definition rooted (slashes : nat) (comps : list str) : str :=
  repeat PosixPath.sep slashes ++ PyStr.join [PosixPath.sep] comps.

(** A name a directory entry can have: not empty, no separator, and
    neither [.] nor [..]. *)
Definition entry_name (name : str) : bool :=
  truthy name && negb (contains PosixPath.sep name)
  && negb (str_eqb name PosixPath.curdir)
  && negb (str_eqb name PosixPath.pardir).

(** ** A sample project *)

(** A small project to run the traversal on: the root [/proj] holds
    [a.py] and [README.md], a package [pkg] and a virtual environment
    [venv]; there is no ignore file. *)
Module Demo.

Definition foo_text : str := lit "def foo(): pass" ++ Sample.nl.
Definition class_text : str :=
  lit "class C:" ++ Sample.nl ++ lit "    def m(self): pass" ++ Sample.nl
  ++ lit "def g(): pass" ++ Sample.nl.

Definition foo_tree : node :=
  Sample.module_ [Node (FunctionDef (lit "foo"))
                       [Sample.arguments_; Sample.pass_]].
Definition class_tree : node :=
  Sample.module_
    [Node (ClassDef (lit "C"))
          [Node (FunctionDef (lit "m"))
                [Node (Other (lit "arguments")) [Node (Other (lit "arg")) []];
                 Sample.pass_]];
     Node (FunctionDef (lit "g")) [Sample.arguments_; Sample.pass_]].

Definition parser (content : str) : result node :=
  if str_eqb content foo_text then Ok foo_tree
  else if str_eqb content class_text then Ok class_tree
  else Raise Sample.never_closed.

Definition files : str -> file_state :=
  files_fs [ (lit "/proj/a.py", Opens [foo_text] Eof);
             (lit "/proj/pkg/m.py",
              Opens [lit "class C:" ++ Sample.nl;
                     lit "    def m(self): pass" ++ Sample.nl;
                     lit "def g(): pass" ++ Sample.nl] Eof);
             (lit "/proj/venv/b.py", Opens [foo_text] Eof) ].

Definition venv_tree : dtree := Dir [] [lit "b.py"].
Definition pkg_tree : dtree :=
  Dir [] [lit "m.py"; lit "notes.txt"; lit "old.pyc"].
Definition tree : dtree :=
  Dir [(lit "venv", venv_tree); (lit "pkg", pkg_tree)]
      [lit "a.py"; lit "README.md"].

Definition dir_at (path : str) : dtree :=
  if str_eqb path (lit "/proj") then tree else NotWalked.

(** The same project with a populated virtual environment. *)
Definition full_venv_tree : dtree :=
  Dir [(lit "lib", Dir [] [lit "site.py"])] [lit "b.py"; lit "c.py"].
Definition full_tree : dtree :=
  Dir [(lit "venv", full_venv_tree); (lit "pkg", pkg_tree)]
      [lit "a.py"; lit "README.md"].
Definition full_dir_at (path : str) : dtree :=
  if str_eqb path (lit "/proj") then full_tree else NotWalked.

Definition writable (path : str) : option exn := None.
Definition read_only (path : str) : option exn :=
  Some (Exn OSError (lit "[Errno 13] Permission denied: 'project_structure.txt'")).

Definition scanner : ProjectScanner := default_scanner Sample.root Sample.out.

End Demo.

(* ================================================================== *)
(** * Facts about Python strings *)
(* ================================================================== *)

Lemma str_eqb_refl (s : str) : str_eqb s s = true.
Proof.
  induction s as [|c s IH]; simpl; [reflexivity|].
  now rewrite N.eqb_refl, IH.
Qed.

Lemma str_eqb_eq (a b : str) : str_eqb a b = true <-> a = b.
Proof.
  split.
  - revert b; induction a as [|x a IH]; intros [|y b] H; simpl in H;
      try discriminate; [reflexivity|].
    apply andb_true_iff in H as [Hx Hab].
    apply N.eqb_eq in Hx. f_equal; auto.
  - intros ->. apply str_eqb_refl.
Qed.

Lemma str_eqb_neq (a b : str) : str_eqb a b = false <-> a <> b.
Proof.
  rewrite <- str_eqb_eq. destruct (str_eqb a b); split; congruence.
Qed.

Lemma truthy_false (s : str) : truthy s = false <-> s = [].
Proof. destruct s; simpl; split; congruence. Qed.

Lemma contains_app (c : char) (a b : str) :
  contains c (a ++ b) = contains c a || contains c b.
Proof. apply existsb_app. Qed.

(** *** Stripping *)

Lemma lstrip_by_idem (p : char -> bool) (s : str) :
  lstrip_by p (lstrip_by p s) = lstrip_by p s.
Proof.
  induction s as [|c s IH]; simpl; [reflexivity|].
  destruct (p c) eqn:E; [exact IH|]. simpl. now rewrite E.
Qed.

Lemma rstrip_by_idem (p : char -> bool) (s : str) :
  rstrip_by p (rstrip_by p s) = rstrip_by p s.
Proof.
  unfold rstrip_by. now rewrite rev_involutive, lstrip_by_idem.
Qed.

Lemma lstrip_by_all (p : char -> bool) (s : str) :
  forallb p s = true -> lstrip_by p s = [].
Proof.
  induction s as [|c s IH]; simpl; [reflexivity|].
  intros H. apply andb_true_iff in H as [Hc Hs]. now rewrite Hc, IH.
Qed.

Lemma lstrip_by_nil_all (p : char -> bool) (s : str) :
  lstrip_by p s = [] -> forallb p s = true.
Proof.
  induction s as [|c s IH]; simpl; [reflexivity|].
  destruct (p c); [exact IH|discriminate].
Qed.

Lemma lstrip_by_app_all (p : char -> bool) (ws s : str) :
  forallb p ws = true -> lstrip_by p (ws ++ s) = lstrip_by p s.
Proof.
  induction ws as [|c ws IH]; simpl; [reflexivity|].
  intros H. apply andb_true_iff in H as [Hc Hs]. now rewrite Hc, IH.
Qed.

Lemma forallb_rev {A : Type} (p : A -> bool) (l : list A) :
  forallb p (rev l) = forallb p l.
Proof.
  induction l as [|x l IH]; simpl; [reflexivity|].
  rewrite forallb_app, IH. simpl. rewrite andb_true_r. apply andb_comm.
Qed.

Lemma rstrip_by_app_all (p : char -> bool) (s ws : str) :
  forallb p ws = true -> rstrip_by p (s ++ ws) = rstrip_by p s.
Proof.
  intros H. unfold rstrip_by. rewrite rev_app_distr.
  rewrite lstrip_by_app_all; [reflexivity|]. now rewrite forallb_rev.
Qed.

(** A string whose last character does not satisfy [p] loses nothing. *)
Lemma rstrip_by_keep (p : char -> bool) (s : str) (c : char) :
  p c = false -> rstrip_by p (s ++ [c]) = s ++ [c].
Proof.
  intros H. unfold rstrip_by. rewrite rev_app_distr. simpl.
  rewrite H. simpl. now rewrite rev_involutive.
Qed.

(** The test [not content.strip()] holds exactly for the strings made of
    whitespace only (the empty one among them). *)
Lemma strip_nil_iff (s : str) : strip s = [] <-> forallb isspace s = true.
Proof.
  unfold strip, rstrip_by. split.
  - intros H.
    assert (Hr : lstrip_by isspace (rev (lstrip_by isspace s)) = []).
    { apply (f_equal (@rev char)) in H. now rewrite rev_involutive in H. }
    apply lstrip_by_nil_all in Hr. rewrite forallb_rev in Hr.
    clear H. induction s as [|c s IH]; simpl in *; [reflexivity|].
    destruct (isspace c) eqn:E; simpl; [now apply IH|].
    simpl in Hr. now rewrite E in Hr.
  - intros H. now rewrite (lstrip_by_all _ _ H).
Qed.

(** A line holding a text with no whitespace at either end, wrapped in
    whitespace, strips to that text. *)
Lemma strip_wrapped (pre body post : str) (a z : char) (mid : str) :
  body = a :: mid ++ [z] \/ (body = [a] /\ a = z /\ mid = []) ->
  isspace a = false -> isspace z = false ->
  forallb isspace pre = true -> forallb isspace post = true ->
  strip (pre ++ body ++ post) = body.
Proof.
  intros Hb Ha Hz Hpre Hpost. unfold strip.
  rewrite lstrip_by_app_all by assumption.
  assert (Hl : lstrip_by isspace (body ++ post) = body ++ post).
  { destruct Hb as [-> | (-> & _ & _)]; simpl; now rewrite Ha. }
  rewrite Hl, rstrip_by_app_all by assumption.
  destruct Hb as [-> | (-> & -> & _)].
  - change (a :: mid ++ [z]) with ((a :: mid) ++ [z]).
    now apply rstrip_by_keep.
  - now apply (rstrip_by_keep isspace []).
Qed.

(* ================================================================== *)
(** * Facts about paths *)
(* ================================================================== *)

Lemma rfind_from_absent (c : char) (s : str) (i last : Z) :
  contains c s = false -> rfind_from c s i last = last.
Proof.
  revert i last. induction s as [|x s IH]; intros i last H; simpl;
    [reflexivity|].
  simpl in H. apply orb_false_iff in H as [Hx Hs].
  rewrite N.eqb_sym, Hx. now apply IH.
Qed.

Lemma rfind_from_last (c : char) (a b : str) (i last : Z) :
  contains c b = false ->
  rfind_from c (a ++ c :: b) i last = (i + Z.of_nat (length a))%Z.
Proof.
  intros Hb. revert i last.
  induction a as [|x a IH]; intros i last; simpl rfind_from.
  - rewrite N.eqb_refl, (rfind_from_absent _ _ _ _ Hb). simpl. lia.
  - rewrite IH. simpl length. lia.
Qed.

(** A string either has no [c], or splits at its last [c]. *)
Lemma last_occurrence (c : char) (s : str) :
  contains c s = false \/
  exists a b, s = a ++ c :: b /\ contains c b = false.
Proof.
  induction s as [|x s [IH | (a & b & -> & Hb)]].
  - now left.
  - simpl. destruct (N.eqb c x) eqn:E.
    + right. apply N.eqb_eq in E as <-. now exists [], s.
    + now left.
  - right. now exists (x :: a), b.
Qed.

Lemma basename_plain (n : str) :
  contains PosixPath.sep n = false -> PosixPath.basename n = n.
Proof.
  intros H. unfold PosixPath.basename, rfind.
  now rewrite (rfind_from_absent _ _ _ _ H).
Qed.

Lemma basename_after_sep (d n : str) :
  contains PosixPath.sep n = false ->
  PosixPath.basename (d ++ PosixPath.sep :: n) = n.
Proof.
  intros H. unfold PosixPath.basename, rfind, slice_from.
  rewrite (rfind_from_last _ d _ _ _ H).
  replace (Z.to_nat (0 + Z.of_nat (length d) + 1)) with (length d + 1) by lia.
  rewrite <- (firstn_skipn 0 n) at 2. simpl firstn.
  replace (d ++ PosixPath.sep :: n) with ((d ++ [PosixPath.sep]) ++ n)
    by now rewrite <- app_assoc.
  rewrite skipn_app, length_app. simpl length.
  replace (length d + 1 - (length d + 1)) with 0 by lia.
  rewrite skipn_all2 by (rewrite length_app; simpl; lia).
  reflexivity.
Qed.

(** A base name never holds a separator. *)
Lemma basename_no_sep (p : str) :
  contains PosixPath.sep (PosixPath.basename p) = false.
Proof.
  destruct (last_occurrence PosixPath.sep p) as [H | (a & b & -> & Hb)].
  - now rewrite basename_plain.
  - now rewrite basename_after_sep.
Qed.

Lemma endswith_sep (d : str) :
  endswith d [PosixPath.sep] = true -> exists d', d = d' ++ [PosixPath.sep].
Proof.
  unfold endswith. simpl. intros H.
  destruct (rev d) as [|x r] eqn:E; [discriminate|].
  simpl in H. apply andb_true_iff in H as [H _]. apply N.eqb_eq in H as ->.
  exists (rev r). apply (f_equal (@rev char)) in E.
  now rewrite rev_involutive in E.
Qed.

(** The traversal builds every path it asks about as
    [os.path.join(directory, entry)]; when the entry holds no separator it
    is the base name of that path. *)
Lemma basename_join (d entry : str) :
  contains PosixPath.sep entry = false ->
  PosixPath.basename (PosixPath.join d [entry]) = entry.
Proof.
  intros H. unfold PosixPath.join. simpl. unfold PosixPath.join_step.
  destruct (startswith entry [PosixPath.sep]) eqn:Es.
  - now apply basename_plain.
  - destruct (truthy d) eqn:Ed; simpl.
    + destruct (endswith d [PosixPath.sep]) eqn:Ee.
      * apply endswith_sep in Ee as (d' & ->). rewrite <- app_assoc. simpl.
        now apply basename_after_sep.
      * now apply basename_after_sep.
    + apply truthy_false in Ed as ->. now apply basename_plain.
Qed.

(** The root-relative path is never the empty string. *)
Lemma join_step_nonempty (a b : str) : a <> [] -> PosixPath.join_step a b <> [].
Proof.
  intros Ha. unfold PosixPath.join_step.
  destruct (startswith b [PosixPath.sep]) eqn:Es.
  - destruct b; [discriminate|congruence].
  - destruct (negb (truthy a) || endswith a [PosixPath.sep]);
      destruct a; simpl; congruence.
Qed.

Lemma join_nonempty (p : list str) (a : str) : a <> [] -> PosixPath.join a p <> [].
Proof.
  unfold PosixPath.join. revert a.
  induction p as [|b p IH]; intros a Ha; simpl; [exact Ha|].
  apply IH. now apply join_step_nonempty.
Qed.

Lemma filter_truthy_nonempty (l : list str) (x : str) :
  In x (filter truthy l) -> x <> [].
Proof.
  intros H. apply filter_In in H as [_ H]. now destruct x.
Qed.

Lemma relpath_nonempty (cwd path start rel : str) :
  PosixPath.relpath cwd path start = Ok rel -> rel <> [].
Proof.
  unfold PosixPath.relpath.
  destruct (negb (truthy path)); [discriminate|].
  set (sl := filter truthy (split PosixPath.sep (PosixPath.abspath cwd start))).
  set (pl := filter truthy (split PosixPath.sep (PosixPath.abspath cwd path))).
  set (i := length (PosixPath.commonprefix sl pl)).
  destruct (repeat PosixPath.pardir (length sl - i) ++ skipn i pl)
    as [|a p] eqn:E.
  - intros [= <-]. discriminate.
  - intros [= <-]. apply join_nonempty.
    assert (Hin : In a (repeat PosixPath.pardir (length sl - i) ++ skipn i pl))
      by (rewrite E; now left).
    apply in_app_or in Hin as [Hin | Hin].
    + apply repeat_spec in Hin as ->. discriminate.
    + apply (filter_truthy_nonempty
               (split PosixPath.sep (PosixPath.abspath cwd path))).
      fold pl. rewrite <- (firstn_skipn i pl). apply in_or_app. now right.
Qed.

(* ================================================================== *)
(** * Facts about [fnmatch] *)
(* ================================================================== *)

Lemma translate_loop_plain (pat : str) (res : list Fnmatch.token) :
  plain pat = true ->
  Fnmatch.translate_loop pat 0 res = res ++ map Fnmatch.Literal pat.
Proof.
  revert res. induction pat as [|c pat IH]; intros res H; simpl.
  - now rewrite app_nil_r.
  - simpl in H. apply andb_true_iff in H as [Hc Hp].
    apply negb_true_iff in Hc.
    apply orb_false_iff in Hc as [Hc Hb].
    apply orb_false_iff in Hc as [Hs Hq].
    rewrite Hs, Hq, Hb, IH by assumption.
    now rewrite <- app_assoc.
Qed.

Lemma matches_literals (pat name : str) :
  Fnmatch.matches (map Fnmatch.Literal pat) name = str_eqb name pat.
Proof.
  revert name. induction pat as [|c pat IH]; intros [|x name]; simpl;
    try reflexivity.
  now rewrite IH.
Qed.

(** A pattern without [*], [?] and [[] matches its own text and nothing
    else. *)
Lemma fnmatch_plain (name pat : str) :
  plain pat = true -> Fnmatch.fnmatch name pat = str_eqb name pat.
Proof.
  intros H. unfold Fnmatch.fnmatch, Fnmatch.fnmatchcase, Fnmatch.translate.
  rewrite translate_loop_plain by assumption. simpl.
  apply matches_literals.
Qed.

Lemma fnmatch_plain_self (pat : str) :
  plain pat = true -> Fnmatch.fnmatch pat pat = true.
Proof. intros H. rewrite fnmatch_plain by assumption. apply str_eqb_refl. Qed.

(** The empty pattern matches the empty string only. *)
Lemma fnmatch_empty_pattern (name : str) :
  Fnmatch.fnmatch name [] = negb (truthy name).
Proof. reflexivity. Qed.

(** *** The fuel of the chunk loop *)

Lemma find_from_bounds (c : char) (s : str) (k k' : nat) :
  find_from c s k = Some k' -> k <= k' < length s.
Proof.
  revert k k'. induction s as [|x s IH]; intros k k' H; simpl in H;
    [discriminate|].
  destruct k as [|k].
  - destruct (N.eqb x c).
    + injection H as <-. simpl. lia.
    + destruct (find_from c s 0) as [j|] eqn:E; [|discriminate].
      injection H as <-. apply IH in E. simpl. lia.
  - destruct (find_from c s k) as [j|] eqn:E; [|discriminate].
    injection H as <-. apply IH in E. simpl. lia.
Qed.

(** Once the fuel covers what is left of [stuff] after [k], one more unit
    changes nothing: the loop of [chunks_of] always runs to its [break]. *)
Lemma chunk_loop_fuel (fuel : nat) :
  forall (stuff : str) (i k : nat) (chunks : list str),
    length stuff <= k + fuel ->
    Fnmatch.chunk_loop (S fuel) stuff i k chunks
    = Fnmatch.chunk_loop fuel stuff i k chunks.
Proof.
  induction fuel as [|fuel IH]; intros stuff i k chunks H.
  - simpl. destruct (find_from Fnmatch.hyphen stuff k) as [k'|] eqn:E;
      [|reflexivity].
    apply find_from_bounds in E. lia.
  - change (Fnmatch.chunk_loop (S (S fuel)) stuff i k chunks)
      with (match find_from Fnmatch.hyphen stuff k with
            | None => (chunks, i)
            | Some k' =>
                Fnmatch.chunk_loop (S fuel) stuff (k' + 1) (k' + 3)
                  (chunks ++ [Fnmatch.slice stuff i k'])
            end).
    simpl. destruct (find_from Fnmatch.hyphen stuff k) as [k'|] eqn:E;
      [|reflexivity].
    apply find_from_bounds in E. apply IH. lia.
Qed.

Lemma chunk_loop_enough (stuff : str) (i k extra : nat) (chunks : list str) :
  Fnmatch.chunk_loop (S (length stuff) + extra) stuff i k chunks
  = Fnmatch.chunk_loop (S (length stuff)) stuff i k chunks.
Proof.
  induction extra as [|extra IH]; [now rewrite Nat.add_0_r|].
  rewrite Nat.add_succ_r, chunk_loop_fuel by lia. exact IH.
Qed.

(* ================================================================== *)
(** * Facts about the loop of [_is_ignored] *)
(* ================================================================== *)

Lemma ignore_loop_app (name rel : str) (is_dir : bool) (a b : list str) :
  ignore_loop name rel is_dir (a ++ b)
  = ignore_loop name rel is_dir a || ignore_loop name rel is_dir b.
Proof.
  induction a as [|p a IH]; simpl; [reflexivity|].
  destruct (Fnmatch.fnmatch name p); [reflexivity|].
  destruct (Fnmatch.fnmatch rel p); [reflexivity|].
  destruct (is_dir && Fnmatch.fnmatch name (rstrip (lit "/") p));
    [reflexivity|exact IH].
Qed.

(** Where no pattern ends in a separator, the third test repeats the
    first, so the flag [is_dir] changes nothing. *)
Lemma ignore_loop_flag (name rel : str) (patterns : list str) :
  Forall no_trailing_sep patterns ->
  ignore_loop name rel true patterns = ignore_loop name rel false patterns.
Proof.
  induction 1 as [|p ps Hp _ IH]; simpl; [reflexivity|].
  rewrite Hp.
  destruct (Fnmatch.fnmatch name p); [reflexivity|].
  destruct (Fnmatch.fnmatch rel p); [reflexivity|exact IH].
Qed.

(** A pattern that matches neither string can be left out. *)
Lemma ignore_loop_skip (name rel : str) (is_dir : bool) (p : str)
  (a b : list str) :
  Fnmatch.fnmatch name p = false ->
  Fnmatch.fnmatch rel p = false ->
  Fnmatch.fnmatch name (rstrip (lit "/") p) = false ->
  ignore_loop name rel is_dir (a ++ p :: b)
  = ignore_loop name rel is_dir (a ++ b).
Proof.
  intros H1 H2 H3. rewrite !ignore_loop_app. simpl.
  now rewrite H1, H2, H3, andb_false_r.
Qed.

(** The loop answers [true] as soon as the base name matches a pattern. *)
Lemma ignore_loop_name (name rel : str) (is_dir : bool) (p : str)
  (patterns : list str) :
  In p patterns -> Fnmatch.fnmatch name p = true ->
  ignore_loop name rel is_dir patterns = true.
Proof.
  intros Hin Hm. induction patterns as [|q ps IH]; [contradiction|].
  simpl. destruct Hin as [-> | Hin].
  - now rewrite Hm.
  - destruct (Fnmatch.fnmatch name q); [reflexivity|].
    destruct (Fnmatch.fnmatch rel q); [reflexivity|].
    destruct (is_dir && _); [reflexivity|auto].
Qed.

(* ================================================================== *)
(** * Facts about [_load_gitignore] *)
(* ================================================================== *)

Lemma gitignore_line_app (patterns : list str) (line : str) :
  gitignore_line patterns line = patterns ++ gitignore_line [] line.
Proof.
  unfold gitignore_line.
  destruct (truthy (strip line) && negb (startswith (strip line) (lit "#")));
    [reflexivity|now rewrite app_nil_r].
Qed.

Lemma fold_gitignore_line (lines : list str) (patterns : list str) :
  fold_left gitignore_line lines patterns
  = patterns ++ fold_left gitignore_line lines [].
Proof.
  revert patterns. induction lines as [|l ls IH]; intros patterns; simpl.
  - now rewrite app_nil_r.
  - rewrite IH, (IH (gitignore_line [] l)), gitignore_line_app.
    now rewrite app_assoc.
Qed.

(** The patterns of a file are those of its lines, in order. *)
Lemma fold_gitignore_line_split (l1 : list str) (line : str) (l2 : list str)
  (patterns : list str) :
  fold_left gitignore_line (l1 ++ line :: l2) patterns
  = fold_left gitignore_line l1 patterns
    ++ gitignore_line [] line ++ fold_left gitignore_line l2 [].
Proof.
  rewrite fold_left_app. simpl.
  rewrite fold_gitignore_line, gitignore_line_app.
  now rewrite <- app_assoc.
Qed.

Lemma rstrip_no_trailing_sep (s : str) : no_trailing_sep (rstrip (lit "/") s).
Proof. unfold no_trailing_sep, rstrip. apply rstrip_by_idem. Qed.

Lemma default_patterns_no_trailing_sep : Forall no_trailing_sep default_patterns.
Proof. repeat constructor. Qed.

Lemma gitignore_line_no_trailing_sep (patterns : list str) (line : str) :
  Forall no_trailing_sep patterns ->
  Forall no_trailing_sep (gitignore_line patterns line).
Proof.
  intros H. unfold gitignore_line.
  destruct (truthy (strip line) && negb (startswith (strip line) (lit "#")));
    [|exact H].
  apply Forall_app. split; [exact H|].
  constructor; [apply rstrip_no_trailing_sep|constructor].
Qed.

Lemma fold_gitignore_no_trailing_sep (lines : list str) (patterns : list str) :
  Forall no_trailing_sep patterns ->
  Forall no_trailing_sep (fold_left gitignore_line lines patterns).
Proof.
  revert patterns. induction lines as [|l ls IH]; intros patterns H; simpl;
    [exact H|].
  apply IH. now apply gitignore_line_no_trailing_sep.
Qed.

(** What [_load_gitignore] returns and prints, for each state of the
    ignore file. *)
Lemma load_gitignore_run (fs : str -> file_state) (root : str) (w : world) :
  let st := fs (PosixPath.join root [lit ".gitignore"]) in
  _load_gitignore fs root w
  = (Ok (fold_left gitignore_line (lines_yielded st) default_patterns),
     match failure_of st with
     | None => w
     | Some e => {| console := console w ++ [warning_prefix ++ exn_msg e];
                    parsed := parsed w |}
     end).
Proof.
  unfold _load_gitignore, path_exists, for_each_line.
  destruct (fs (PosixPath.join root [lit ".gitignore"])) as [|e|lines [|e]];
    reflexivity.
Qed.

Lemma init_run (cwd : str) (fs : str -> file_state) (root out : str)
  (w : world) :
  let st := fs (gitignore_path_of cwd root) in
  __init__ cwd fs root out w
  = (Ok {| root_path := PosixPath.abspath cwd root;
           output_file := out;
           ignore_patterns :=
             fold_left gitignore_line (lines_yielded st) default_patterns |},
     match failure_of st with
     | None => w
     | Some e => {| console := console w ++ [warning_prefix ++ exn_msg e];
                    parsed := parsed w |}
     end).
Proof.
  unfold __init__, bind, gitignore_path_of. now rewrite load_gitignore_run.
Qed.

(* ================================================================== *)
(** * Facts about [ast.walk] *)
(* ================================================================== *)

Lemma total_app (a b : list node) : total (a ++ b) = total a + total b.
Proof. unfold total. now rewrite map_app, list_sum_app. Qed.

Lemma total_cons (t : node) (rest : list node) :
  total (t :: rest) = S (total (rest ++ iter_child_nodes t)).
Proof.
  rewrite total_app. destruct t as [c children]. unfold total. simpl. lia.
Qed.

Lemma walk_loop_nil (fuel : nat) : walk_loop fuel [] = [].
Proof. now destruct fuel. Qed.

(** The fuel [walk] starts with is enough: more of it changes nothing. *)
Lemma walk_loop_fuel (fuel : nat) (todo : list node) :
  total todo <= fuel -> walk_loop fuel todo = walk_loop (total todo) todo.
Proof.
  revert todo. induction fuel as [|fuel IH]; intros todo H.
  - now replace (total todo) with 0 by lia.
  - destruct todo as [|t rest]; [reflexivity|].
    rewrite total_cons in *. simpl. f_equal. apply IH. lia.
Qed.

(** Every node is yielded once: [walk] yields as many nodes as the tree
    has. *)
Lemma walk_loop_length (fuel : nat) (todo : list node) :
  total todo <= fuel -> length (walk_loop fuel todo) = total todo.
Proof.
  revert todo. induction fuel as [|fuel IH]; intros todo H.
  - simpl. lia.
  - destruct todo as [|t rest]; [reflexivity|].
    rewrite total_cons in *. simpl. f_equal. apply IH. lia.
Qed.

Lemma walk_length (t : node) : length (walk t) = size t.
Proof.
  unfold walk. rewrite walk_loop_length; unfold total; simpl; lia.
Qed.

Lemma walk_loop_complete (fuel : nat) :
  forall (todo : list node) (t n : node),
    total todo <= fuel -> In t todo -> descendant n t ->
    In n (walk_loop fuel todo).
Proof.
  induction fuel as [|fuel IH]; intros todo t n Hfuel Hin Hdesc.
  - destruct todo as [|t0 rest]; [contradiction|].
    rewrite total_cons in Hfuel. lia.
  - destruct todo as [|t0 rest]; [contradiction|].
    rewrite total_cons in Hfuel. simpl.
    assert (Hle : total (rest ++ iter_child_nodes t0) <= fuel) by lia.
    destruct Hin as [<- | Hin].
    + inversion Hdesc as [|t' c Hc Hn]; subst.
      * now left.
      * right. apply (IH _ c n Hle); [|exact Hn].
        apply in_or_app. now right.
    + right. apply (IH _ t n Hle); [|exact Hdesc].
      apply in_or_app. now left.
Qed.

Lemma walk_loop_sound (fuel : nat) :
  forall (todo : list node) (n : node),
    In n (walk_loop fuel todo) -> exists t, In t todo /\ descendant n t.
Proof.
  induction fuel as [|fuel IH]; intros todo n Hin; [contradiction|].
  destruct todo as [|t0 rest]; [contradiction|].
  simpl in Hin. destruct Hin as [<- | Hin].
  - exists t0. split; [now left|constructor].
  - apply IH in Hin as (t & Ht & Hd).
    apply in_app_or in Ht as [Ht | Ht].
    + exists t. split; [now right|exact Hd].
    + exists t0. split; [now left|].
      now apply desc_child with (c := t).
Qed.

(** [ast.walk] yields exactly the nodes of the tree. *)
Lemma walk_spec (t n : node) : In n (walk t) <-> descendant n t.
Proof.
  split.
  - intros H. apply walk_loop_sound in H as (t' & [<- | []] & Hd). exact Hd.
  - intros H. apply (walk_loop_complete (size t) [t] t n); [|now left|exact H].
    unfold total. simpl. lia.
Qed.

(* ================================================================== *)
(** * Facts about [_get_definitions] *)
(* ================================================================== *)

Lemma visit_app (definitions : list str) (n : node) :
  visit definitions n = definitions ++ entry_of n.
Proof.
  unfold entry_of, visit. destruct (node_cls n); simpl;
    try reflexivity. now rewrite app_nil_r.
Qed.

(** The loop appends the entries of the nodes in the order of the walk. *)
Lemma fold_visit (nodes : list node) (definitions : list str) :
  fold_left visit nodes definitions = definitions ++ flat_map entry_of nodes.
Proof.
  revert definitions. induction nodes as [|n ns IH]; intros definitions; simpl.
  - now rewrite app_nil_r.
  - now rewrite IH, visit_app, <- app_assoc.
Qed.

(** What [_get_definitions] returns and records, by cases on the file and
    on the parser. *)
Lemma get_definitions_run (fs : str -> file_state)
  (parser : str -> result node) (path : str) (w : world) :
  _get_definitions fs parser path w
  = match file_content (fs path) with
    | Raise _ => (Ok [], w)
    | Ok content =>
        if negb (truthy (strip content)) then (Ok [], w)
        else
          (match parser content with
           | Ok tree => Ok (flat_map entry_of (walk tree))
           | Raise _ => Ok []
           end,
           {| console := console w; parsed := parsed w ++ [content] |})
    end.
Proof.
  unfold _get_definitions, bind, try_except, read_text, ast_parse, ret.
  destruct (file_content (fs path)) as [content|e]; [|reflexivity].
  destruct (negb (truthy (strip content))); [reflexivity|].
  destruct (parser content) as [tree|e]; [|reflexivity].
  now rewrite fold_visit.
Qed.

(** The entry of a node is decided by its class and name. *)
Lemma entry_of_cases (n : node) (e : str) :
  In e (entry_of n) ->
  (exists name, (node_cls n = FunctionDef name \/ node_cls n = AsyncFunctionDef name)
                /\ e = (if startswith name (lit "_") then lock_marker
                        else bolt_marker) ++ lit "def " ++ name)
  \/ (exists name, node_cls n = ClassDef name
                   /\ e = package_marker ++ lit "class " ++ name).
Proof.
  unfold entry_of, visit. destruct (node_cls n) as [name|name|name|c]; simpl.
  - intros [<- | []]. left. exists name. auto.
  - intros [<- | []]. left. exists name. auto.
  - intros [<- | []]. right. exists name. auto.
  - intros [].
Qed.

(** [_get_definitions] returns a list whatever the file and the parser
    do: nothing it calls can raise past its [except] clause. *)
Lemma get_definitions_never_raises (fs : str -> file_state)
  (parser : str -> result node) (path : str) (w : world) :
  exists defs, fst (_get_definitions fs parser path w) = Ok defs.
Proof.
  rewrite get_definitions_run.
  destruct (file_content (fs path)) as [content|e]; [|now exists []].
  destruct (negb (truthy (strip content))); [now exists []|].
  destruct (parser content) as [tree|e]; simpl; eauto.
Qed.

(** What is returned for a file that reads and parses: the entries of the
    nodes of its tree, in the order of the walk. *)
Lemma get_definitions_parsed (fs : str -> file_state)
  (parser : str -> result node) (path : str) (w : world)
  (content : str) (tree : node) :
  file_content (fs path) = Ok content ->
  strip content <> [] ->
  parser content = Ok tree ->
  fst (_get_definitions fs parser path w) = Ok (flat_map entry_of (walk tree)).
Proof.
  intros Hread Hblank Hparse. rewrite get_definitions_run, Hread.
  destruct (strip content) eqn:E; [congruence|]. simpl.
  now rewrite Hparse.
Qed.

Lemma entry_in_walk (tree n : node) (e : str) :
  descendant n tree -> In e (entry_of n) ->
  In e (flat_map entry_of (walk tree)).
Proof.
  intros Hd He. apply in_flat_map. exists n. split; [|exact He].
  now apply walk_spec.
Qed.

(* ================================================================== *)
(** * The definition extractor: properties of the specification *)
(* ================================================================== *)

(** C1, as stated, fails.  The texts [async def f(): pass] and
    [def f(): pass] give the same output, the single entry "bolt def f";
    so no reading of the emitted entries gives the kind AsyncFunction for
    the first and Function for the second. *)
Lemma async_entry_equals_function_entry :
  fst (_get_definitions Sample.sources Sample.parser (lit "/proj/a.py")
         initial_world) = Ok [bolt_marker ++ lit "def f"]
  /\ fst (_get_definitions Sample.sources Sample.parser (lit "/proj/b.py")
            initial_world) = Ok [bolt_marker ++ lit "def f"]
  /\ ~ (exists kind_of : str -> Spec.kind,
          forall (n : node) (e : str) (d : Spec.definition),
            In e (entry_of n) -> Spec.definition_of n = Some d ->
            kind_of e = Spec.def_kind d).
Proof.
  split; [reflexivity|]. split; [reflexivity|].
  intros (kind_of & H).
  pose proof (H (Node (AsyncFunctionDef (lit "f")) []) _ _
                (or_introl eq_refl) eq_refl) as Ha.
  pose proof (H (Node (FunctionDef (lit "f")) []) _ _
                (or_introl eq_refl) eq_refl) as Hf.
  simpl in Ha, Hf. congruence.
Qed.

(** C1, amended: every asynchronous function definition of a file that
    parses is emitted, as an entry made of the visibility marker, the word
    [def] and the name; this is the very entry an ordinary function of
    that name gets, so the output has one kind for both. *)
Theorem async_function_emitted_as_def (fs : str -> file_state)
  (parser : str -> result node) (path : str) (w : world)
  (content : str) (tree : node) (name : str) (children : list node) :
  file_content (fs path) = Ok content ->
  strip content <> [] ->
  parser content = Ok tree ->
  descendant (Node (AsyncFunctionDef name) children) tree ->
  exists defs,
    fst (_get_definitions fs parser path w) = Ok defs
    /\ In (marker_of (Spec.visibility_of name) ++ lit "def " ++ name) defs
    /\ entry_of (Node (AsyncFunctionDef name) children)
       = entry_of (Node (FunctionDef name) children).
Proof.
  intros Hread Hblank Hparse Hdesc.
  exists (flat_map entry_of (walk tree)). split; [|split].
  - eapply get_definitions_parsed; eauto.
  - apply entry_in_walk with (n := Node (AsyncFunctionDef name) children);
      [exact Hdesc|].
    unfold entry_of, visit, marker_of, Spec.visibility_of. simpl.
    destruct (startswith name (lit "_")); now left.
  - reflexivity.
Qed.

Lemma async_function_emitted_as_def_witness :
  exists defs,
    fst (_get_definitions Sample.sources Sample.parser (lit "/proj/a.py")
           initial_world) = Ok defs
    /\ In (marker_of (Spec.visibility_of (lit "f")) ++ lit "def " ++ lit "f") defs
    /\ entry_of (Node (AsyncFunctionDef (lit "f"))
                      [Sample.arguments_; Sample.pass_])
       = entry_of (Node (FunctionDef (lit "f"))
                        [Sample.arguments_; Sample.pass_]).
Proof.
  apply (async_function_emitted_as_def Sample.sources Sample.parser
           (lit "/proj/a.py") initial_world Sample.async_text
           Sample.async_tree).
  - reflexivity.
  - vm_compute. discriminate.
  - reflexivity.
  - apply desc_child with (c := Node (AsyncFunctionDef (lit "f"))
                                     [Sample.arguments_; Sample.pass_]).
    + simpl. now left.
    + apply desc_self.
Defined.

(** C2, as stated, fails for classes.  The class [_Hidden] is Private by
    its name, yet its entry is "package class _Hidden": it does not begin
    with the private marker, so not every entry begins with the marker of
    its visibility. *)
Lemma private_class_without_private_marker :
  fst (_get_definitions Sample.sources Sample.parser (lit "/proj/c.py")
         initial_world) = Ok [package_marker ++ lit "class _Hidden"]
  /\ Spec.visibility_of (lit "_Hidden") = Spec.Private
  /\ ~ (forall (n : node) (e : str) (d : Spec.definition),
          In e (entry_of n) -> Spec.definition_of n = Some d ->
          startswith e (marker_of (Spec.def_visibility d)) = true).
Proof.
  split; [reflexivity|]. split; [reflexivity|].
  intros H.
  specialize (H (Node (ClassDef (lit "_Hidden")) []) _ _
                (or_introl eq_refl) eq_refl).
  vm_compute in H. discriminate.
Qed.

(** C2, amended: in the output for a file that parses, every function and
    asynchronous function of the tree has its entry, which begins with the
    marker of its visibility (Private exactly when the name begins with an
    underscore, else Public); every class has its entry, which begins with
    the one class marker whatever the name; and the output holds nothing
    else. *)
Theorem entries_carry_visibility (fs : str -> file_state)
  (parser : str -> result node) (path : str) (w : world)
  (content : str) (tree : node) :
  file_content (fs path) = Ok content ->
  strip content <> [] ->
  parser content = Ok tree ->
  exists defs,
    fst (_get_definitions fs parser path w) = Ok defs
    /\ (forall n name, descendant n tree ->
          node_cls n = FunctionDef name \/ node_cls n = AsyncFunctionDef name ->
          In (marker_of (Spec.visibility_of name) ++ lit "def " ++ name) defs)
    /\ (forall n name, descendant n tree -> node_cls n = ClassDef name ->
          In (package_marker ++ lit "class " ++ name) defs)
    /\ (forall e, In e defs ->
          (exists name,
              e = marker_of (Spec.visibility_of name) ++ lit "def " ++ name)
          \/ (exists name, e = package_marker ++ lit "class " ++ name))
    /\ (forall name, Spec.visibility_of name = Spec.Private
                     <-> startswith name (lit "_") = true).
Proof.
  intros Hread Hblank Hparse.
  exists (flat_map entry_of (walk tree)).
  split; [eapply get_definitions_parsed; eauto|].
  split; [|split; [|split]].
  - intros n name Hd Hc. apply entry_in_walk with (n := n); [exact Hd|].
    unfold entry_of, visit, marker_of, Spec.visibility_of.
    destruct Hc as [-> | ->]; destruct (startswith name (lit "_")); now left.
  - intros n name Hd Hc. apply entry_in_walk with (n := n); [exact Hd|].
    unfold entry_of, visit. rewrite Hc. now left.
  - intros e He. apply in_flat_map in He as (n & _ & He).
    apply entry_of_cases in He as [(name & _ & ->) | (name & _ & ->)].
    + left. exists name. unfold marker_of, Spec.visibility_of.
      now destruct (startswith name (lit "_")).
    + right. now exists name.
  - intros name. unfold Spec.visibility_of.
    destruct (startswith name (lit "_")); split; congruence.
Qed.

Lemma entries_carry_visibility_witness :
  file_content (Sample.sources (lit "/proj/d.py")) = Ok Sample.helper_text
  /\ fst (_get_definitions Sample.sources Sample.parser (lit "/proj/d.py")
            initial_world)
     = Ok [lock_marker ++ lit "def _helper"; bolt_marker ++ lit "def run"]
  /\ exists defs,
       fst (_get_definitions Sample.sources Sample.parser (lit "/proj/d.py")
              initial_world) = Ok defs
       /\ (forall n name, descendant n Sample.helper_tree ->
             node_cls n = FunctionDef name \/ node_cls n = AsyncFunctionDef name ->
             In (marker_of (Spec.visibility_of name) ++ lit "def " ++ name) defs)
       /\ (forall n name, descendant n Sample.helper_tree ->
             node_cls n = ClassDef name ->
             In (package_marker ++ lit "class " ++ name) defs)
       /\ (forall e, In e defs ->
             (exists name,
                 e = marker_of (Spec.visibility_of name) ++ lit "def " ++ name)
             \/ (exists name, e = package_marker ++ lit "class " ++ name))
       /\ (forall name, Spec.visibility_of name = Spec.Private
                        <-> startswith name (lit "_") = true).
Proof.
  split; [reflexivity|]. split; [reflexivity|].
  apply (entries_carry_visibility Sample.sources Sample.parser
           (lit "/proj/d.py") initial_world Sample.helper_text
           Sample.helper_tree).
  - reflexivity.
  - vm_compute. discriminate.
  - reflexivity.
Defined.

(** C3: when parsing the text of a file fails, whatever the error, the
    extractor returns the empty list, and it returns: the result is a
    value, not a raised exception, and nothing is printed.  (The same
    holds when the file cannot be read at all.) *)
Theorem parse_failure_returns_empty (fs : str -> file_state)
  (parser : str -> result node) (path : str) (w : world) (e : exn) :
  file_content (fs path) = Raise e
  \/ (exists content, file_content (fs path) = Ok content
                      /\ parser content = Raise e) ->
  fst (_get_definitions fs parser path w) = Ok []
  /\ console (snd (_get_definitions fs parser path w)) = console w.
Proof.
  intros H. rewrite get_definitions_run.
  destruct H as [-> | (content & -> & Hparse)]; [now split|].
  destruct (negb (truthy (strip content))); [now split|].
  now rewrite Hparse.
Qed.

Lemma parse_failure_returns_empty_witness :
  Sample.parser Sample.broken_text = Raise Sample.never_closed
  /\ fst (_get_definitions Sample.sources Sample.parser (lit "/proj/e.py")
            initial_world) = Ok []
  /\ console (snd (_get_definitions Sample.sources Sample.parser
                     (lit "/proj/e.py") initial_world))
     = console initial_world.
Proof.
  split; [reflexivity|].
  apply (parse_failure_returns_empty Sample.sources Sample.parser
           (lit "/proj/e.py") initial_world Sample.never_closed).
  right. exists Sample.broken_text. split; reflexivity.
Defined.

(** C8: for a file whose text is empty or made of whitespace only, the
    extractor returns the empty list and leaves the world as it found it:
    the parser was not called. *)
Theorem blank_file_not_parsed (fs : str -> file_state)
  (parser : str -> result node) (path : str) (w : world) (content : str) :
  file_content (fs path) = Ok content ->
  forallb isspace content = true ->
  _get_definitions fs parser path w = (Ok [], w).
Proof.
  intros Hread Hblank. rewrite get_definitions_run, Hread.
  apply strip_nil_iff in Hblank. now rewrite Hblank.
Qed.

Lemma blank_file_not_parsed_witness :
  forallb isspace Sample.blank_text = true
  /\ _get_definitions Sample.sources Sample.parser (lit "/proj/f.py")
       initial_world = (Ok [], initial_world)
  /\ parsed (snd (_get_definitions Sample.sources Sample.parser
                    (lit "/proj/f.py") initial_world)) = [].
Proof.
  assert (H : _get_definitions Sample.sources Sample.parser (lit "/proj/f.py")
                initial_world = (Ok [], initial_world)).
  { apply (blank_file_not_parsed Sample.sources Sample.parser
             (lit "/proj/f.py") initial_world Sample.blank_text);
      reflexivity. }
  split; [reflexivity|]. split; [exact H|]. now rewrite H.
Defined.

(* ================================================================== *)
(** * The ignore matcher: properties of the specification *)
(* ================================================================== *)

(** ** Loading the patterns *)

(** The pattern a line [build/] gives, and the one a line [build] gives. *)
Lemma line_build_slash (pre post : str) :
  forallb isspace pre = true -> forallb isspace post = true ->
  gitignore_line [] (pre ++ lit "build/" ++ post) = [lit "build"].
Proof.
  intros Hpre Hpost. unfold gitignore_line.
  rewrite (strip_wrapped pre (lit "build/") post 98%N 47%N (lit "uild"));
    auto.
Qed.

Lemma line_build (pre post : str) :
  forallb isspace pre = true -> forallb isspace post = true ->
  gitignore_line [] (pre ++ lit "build" ++ post) = [lit "build"].
Proof.
  intros Hpre Hpost. unfold gitignore_line.
  rewrite (strip_wrapped pre (lit "build") post 98%N 100%N (lit "uil"));
    auto.
Qed.

(** C5, as stated, fails.  An ignore file that yields the line [build] and
    then fails on an undecodable byte leaves the pattern [build] loaded
    after the built-in ones: the loaded list is not the default list. *)
Lemma read_failure_keeps_earlier_patterns :
  let fs := Sample.project [lit "build" ++ Sample.nl]
                           (ReadFails Sample.bad_byte) in
  failure_of (fs (lit "/proj/.gitignore")) = Some Sample.bad_byte
  /\ fst (_load_gitignore fs Sample.root initial_world)
     = Ok (default_patterns ++ [lit "build"])
  /\ fst (_load_gitignore fs Sample.root initial_world) <> Ok default_patterns.
Proof.
  split; [reflexivity|]. split; [reflexivity|].
  vm_compute. discriminate.
Qed.

(** C5, amended: when the ignore file exists and reading it fails, the
    loader prints one warning that carries the text of the error, returns
    (no exception), and the loaded list is the built-in list followed by
    the patterns of the lines read before the failure; it is the built-in
    list alone when no line was read (the file did not open, or the first
    read failed). *)
Theorem load_failure_warns_and_returns (fs : str -> file_state) (root : str)
  (w : world) (e : exn) :
  failure_of (fs (PosixPath.join root [lit ".gitignore"])) = Some e ->
  _load_gitignore fs root w
  = (Ok (default_patterns
         ++ fold_left gitignore_line
              (lines_yielded (fs (PosixPath.join root [lit ".gitignore"]))) []),
     {| console := console w ++ [warning_prefix ++ exn_msg e];
        parsed := parsed w |})
  /\ (lines_yielded (fs (PosixPath.join root [lit ".gitignore"])) = [] ->
      fst (_load_gitignore fs root w) = Ok default_patterns).
Proof.
  intros Hfail. rewrite load_gitignore_run. cbv zeta. rewrite Hfail.
  split.
  - now rewrite fold_gitignore_line.
  - intros ->. reflexivity.
Qed.

Lemma load_failure_warns_and_returns_witness :
  let fs := Sample.project [] (ReadFails Sample.bad_byte) in
  _load_gitignore fs Sample.root initial_world
  = (Ok (default_patterns
         ++ fold_left gitignore_line
              (lines_yielded
                 (fs (PosixPath.join Sample.root [lit ".gitignore"]))) []),
     {| console := console initial_world
                   ++ [warning_prefix ++ exn_msg Sample.bad_byte];
        parsed := parsed initial_world |})
  /\ (lines_yielded (fs (PosixPath.join Sample.root [lit ".gitignore"])) = [] ->
      fst (_load_gitignore fs Sample.root initial_world) = Ok default_patterns).
Proof.
  apply (load_failure_warns_and_returns
           (Sample.project [] (ReadFails Sample.bad_byte)) Sample.root
           initial_world Sample.bad_byte).
  reflexivity.
Defined.

(** C7: an ignore file with the line [build/] and the same file with the
    line [build] in its place make the same scanner, with the same loaded
    patterns and the same console output; hence [_is_ignored] answers the
    same for every path. *)
Theorem build_slash_same_as_build (cwd : str) (fs1 fs2 : str -> file_state)
  (root out : str) (w : world) (l1 l2 : list str) (fin : read_end)
  (pre post : str) :
  forallb isspace pre = true ->
  forallb isspace post = true ->
  fs1 (gitignore_path_of cwd root)
  = Opens (l1 ++ (pre ++ lit "build/" ++ post) :: l2) fin ->
  fs2 (gitignore_path_of cwd root)
  = Opens (l1 ++ (pre ++ lit "build" ++ post) :: l2) fin ->
  exists self1 self2 w',
    __init__ cwd fs1 root out w = (Ok self1, w')
    /\ __init__ cwd fs2 root out w = (Ok self2, w')
    /\ ignore_patterns self1 = ignore_patterns self2
    /\ ignore_patterns self1
       = fold_left gitignore_line l1 default_patterns
         ++ lit "build" :: fold_left gitignore_line l2 []
    /\ forall path is_dir,
         _is_ignored cwd self1 path is_dir = _is_ignored cwd self2 path is_dir.
Proof.
  intros Hpre Hpost H1 H2.
  do 3 eexists. rewrite !init_run. cbv zeta. rewrite H1, H2.
  cbn [lines_yielded failure_of].
  rewrite !fold_gitignore_line_split.
  rewrite line_build_slash, line_build by assumption.
  repeat split; reflexivity.
Qed.

Lemma build_slash_same_as_build_witness :
  let fs1 := Sample.project [lit "build/" ++ Sample.nl] Eof in
  let fs2 := Sample.project [lit "build" ++ Sample.nl] Eof in
  exists self1 self2 w',
    __init__ Sample.cwd fs1 Sample.root Sample.out initial_world = (Ok self1, w')
    /\ __init__ Sample.cwd fs2 Sample.root Sample.out initial_world
       = (Ok self2, w')
    /\ ignore_patterns self1 = ignore_patterns self2
    /\ ignore_patterns self1
       = fold_left gitignore_line [] default_patterns
         ++ lit "build" :: fold_left gitignore_line [] []
    /\ forall path is_dir,
         _is_ignored Sample.cwd self1 path is_dir
         = _is_ignored Sample.cwd self2 path is_dir.
Proof.
  apply (build_slash_same_as_build Sample.cwd
           (Sample.project [lit "build/" ++ Sample.nl] Eof)
           (Sample.project [lit "build" ++ Sample.nl] Eof)
           Sample.root Sample.out initial_world [] [] Eof [] Sample.nl);
    reflexivity.
Defined.

(** ** Matching *)

(** What [_is_ignored] answers once the root-relative path is known. *)
Lemma is_ignored_run (cwd : str) (self : ProjectScanner) (path : str)
  (is_dir : bool) (rel : str) :
  PosixPath.relpath cwd path (root_path self) = Ok rel ->
  _is_ignored cwd self path is_dir
  = Ok (negb (str_eqb rel (lit "."))
        && ignore_loop (PosixPath.basename path) rel is_dir
             (ignore_patterns self)).
Proof.
  intros H. unfold _is_ignored. rewrite H.
  now destruct (str_eqb rel (lit ".")).
Qed.

(** The answer depends on the scanner through its patterns and root only,
    and on the flag only through the loop. *)
Lemma is_ignored_loop_eq (cwd : str) (self1 self2 : ProjectScanner)
  (path : str) (d1 d2 : bool) :
  root_path self1 = root_path self2 ->
  (forall rel, PosixPath.relpath cwd path (root_path self1) = Ok rel ->
               ignore_loop (PosixPath.basename path) rel d1 (ignore_patterns self1)
               = ignore_loop (PosixPath.basename path) rel d2
                   (ignore_patterns self2)) ->
  _is_ignored cwd self1 path d1 = _is_ignored cwd self2 path d2.
Proof.
  intros Hroot Hloop. unfold _is_ignored. rewrite <- Hroot.
  destruct (PosixPath.relpath cwd path (root_path self1)) as [rel|e];
    [|reflexivity].
  destruct (str_eqb rel (lit ".")); [reflexivity|].
  now rewrite Hloop.
Qed.

(** C9: for the scanner [__init__] makes, whatever the ignore file holds,
    no loaded pattern ends in a separator, and [_is_ignored] gives the same
    answer (or raises the same error) with the flag [is_dir] set and
    unset. *)
Theorem is_dir_flag_changes_nothing (cwd : str) (fs : str -> file_state)
  (root out : str) (w : world) (path : str) :
  exists self w',
    __init__ cwd fs root out w = (Ok self, w')
    /\ Forall no_trailing_sep (ignore_patterns self)
    /\ _is_ignored cwd self path true = _is_ignored cwd self path false.
Proof.
  do 2 eexists. rewrite init_run. cbv zeta.
  split; [reflexivity|].
  assert (Hall : Forall no_trailing_sep
                   (fold_left gitignore_line
                      (lines_yielded (fs (gitignore_path_of cwd root)))
                      default_patterns)).
  { apply fold_gitignore_no_trailing_sep, default_patterns_no_trailing_sep. }
  split; [exact Hall|].
  apply is_ignored_loop_eq; [reflexivity|].
  intros rel _. now apply ignore_loop_flag.
Qed.

(** C6: for the scanner [__init__] makes, whatever the ignore file holds:
    a path other than the root whose base name is one of the built-in
    names without wildcard is ignored, however deep it lies (its
    root-relative path is arbitrary) and whatever the flag. *)
Theorem builtin_name_ignored_at_any_depth (cwd : str)
  (fs : str -> file_state) (root out : str) (w : world)
  (name path rel : str) (is_dir : bool) :
  In name default_patterns ->
  plain name = true ->
  PosixPath.basename path = name ->
  PosixPath.relpath cwd path (PosixPath.abspath cwd root) = Ok rel ->
  rel <> lit "." ->
  exists self w',
    __init__ cwd fs root out w = (Ok self, w')
    /\ _is_ignored cwd self path is_dir = Ok true.
Proof.
  intros Hin Hplain Hname Hrel Hroot.
  do 2 eexists. rewrite init_run. cbv zeta.
  split; [reflexivity|].
  rewrite (is_ignored_run _ _ _ _ rel) by exact Hrel.
  apply str_eqb_neq in Hroot. rewrite Hroot. simpl negb. cbn [andb].
  f_equal. cbn [ignore_patterns]. rewrite fold_gitignore_line.
  rewrite ignore_loop_app.
  rewrite (ignore_loop_name _ _ _ name default_patterns); auto.
  rewrite Hname. now apply fnmatch_plain_self.
Qed.

Lemma builtin_name_ignored_at_any_depth_witness :
  PosixPath.basename (lit "/proj/pkg/sub/deep/__pycache__") = lit "__pycache__"
  /\ PosixPath.relpath Sample.cwd (lit "/proj/pkg/sub/deep/__pycache__")
       (PosixPath.abspath Sample.cwd Sample.root)
     = Ok (lit "pkg/sub/deep/__pycache__")
  /\ exists self w',
       __init__ Sample.cwd (Sample.project [] Eof) Sample.root Sample.out
         initial_world = (Ok self, w')
       /\ _is_ignored Sample.cwd self (lit "/proj/pkg/sub/deep/__pycache__") true
          = Ok true.
Proof.
  split; [reflexivity|]. split; [reflexivity|].
  apply (builtin_name_ignored_at_any_depth Sample.cwd (Sample.project [] Eof)
           Sample.root Sample.out initial_world (lit "__pycache__")
           (lit "/proj/pkg/sub/deep/__pycache__")
           (lit "pkg/sub/deep/__pycache__") true).
  - simpl. tauto.
  - reflexivity.
  - reflexivity.
  - reflexivity.
  - vm_compute. discriminate.
Defined.

Lemma line_src_tmp (pre post : str) :
  forallb isspace pre = true -> forallb isspace post = true ->
  gitignore_line [] (pre ++ lit "src/tmp" ++ post) = [lit "src/tmp"].
Proof.
  intros Hpre Hpost. unfold gitignore_line.
  rewrite (strip_wrapped pre (lit "src/tmp") post 115%N 112%N (lit "rc/tm"));
    auto.
Qed.

(** Against a base name, the pattern [src/tmp] can only match through the
    root-relative path. *)
Lemma src_tmp_loop (name rel : str) (is_dir : bool) :
  contains PosixPath.sep name = false ->
  ignore_loop name rel is_dir [lit "src/tmp"] = str_eqb rel (lit "src/tmp").
Proof.
  intros Hname.
  assert (Hn : Fnmatch.fnmatch name (lit "src/tmp") = false).
  { rewrite fnmatch_plain by reflexivity.
    destruct (str_eqb name (lit "src/tmp")) eqn:E; [|reflexivity].
    apply str_eqb_eq in E. subst name. discriminate Hname. }
  cbn [ignore_loop].
  change (rstrip (lit "/") (lit "src/tmp")) with (lit "src/tmp").
  rewrite Hn, andb_false_r, (fnmatch_plain rel) by reflexivity.
  now destruct (str_eqb rel (lit "src/tmp")).
Qed.

(** C4: for the scanner made from an ignore file that holds the one line
    [src/tmp], the loaded patterns are the built-in ones and [src/tmp];
    a path is ignored exactly when its root-relative path is [src/tmp] or a
    built-in pattern already ignores it; and a directory named [tmp] whose
    root-relative path is [other/tmp] is not ignored.  This holds for every
    root and both values of the flag. *)
Theorem src_tmp_matches_relative_path_only (cwd : str)
  (fs : str -> file_state) (root out : str) (w : world) (pre post : str) :
  forallb isspace pre = true ->
  forallb isspace post = true ->
  fs (gitignore_path_of cwd root) = Opens [pre ++ lit "src/tmp" ++ post] Eof ->
  exists self w',
    __init__ cwd fs root out w = (Ok self, w')
    /\ ignore_patterns self = default_patterns ++ [lit "src/tmp"]
    /\ (forall path is_dir rel,
          PosixPath.relpath cwd path (root_path self) = Ok rel ->
          (_is_ignored cwd self path is_dir = Ok true
           <-> rel = lit "src/tmp"
               \/ (rel <> lit "."
                   /\ ignore_loop (PosixPath.basename path) rel is_dir
                        default_patterns = true)))
    /\ (forall path is_dir,
          PosixPath.basename path = lit "tmp" ->
          PosixPath.relpath cwd path (root_path self) = Ok (lit "other/tmp") ->
          _is_ignored cwd self path is_dir = Ok false).
Proof.
  intros Hpre Hpost Hfs.
  do 2 eexists. rewrite init_run. cbv zeta. rewrite Hfs.
  cbn [lines_yielded failure_of fold_left].
  rewrite gitignore_line_app, line_src_tmp by assumption.
  split; [reflexivity|]. split; [reflexivity|]. split.
  - intros path is_dir rel Hrel.
    rewrite (is_ignored_run _ _ _ _ rel) by exact Hrel.
    cbn [ignore_patterns]. rewrite ignore_loop_app.
    rewrite src_tmp_loop by apply basename_no_sep.
    destruct (str_eqb rel (lit "src/tmp")) eqn:Es.
    + apply str_eqb_eq in Es. subst rel.
      rewrite orb_true_r. split; [now left|reflexivity].
    + rewrite orb_false_r. apply str_eqb_neq in Es.
      destruct (str_eqb rel (lit ".")) eqn:Ed.
      * apply str_eqb_eq in Ed. cbn [negb andb]. split; [discriminate|].
        intros [H | [H _]]; contradiction.
      * apply str_eqb_neq in Ed. cbn [negb andb].
        destruct (ignore_loop (PosixPath.basename path) rel is_dir
                    default_patterns).
        -- split; [now right|reflexivity].
        -- split; [discriminate|]. intros [H | [_ H]];
             [contradiction|discriminate].
  - intros path is_dir Hname Hrel.
    rewrite (is_ignored_run _ _ _ _ (lit "other/tmp")) by exact Hrel.
    cbn [ignore_patterns]. rewrite Hname.
    destruct is_dir; vm_compute; reflexivity.
Qed.

Lemma src_tmp_matches_relative_path_only_witness :
  PosixPath.relpath Sample.cwd (lit "/proj/other/tmp")
    (PosixPath.abspath Sample.cwd Sample.root) = Ok (lit "other/tmp")
  /\ PosixPath.relpath Sample.cwd (lit "/proj/src/tmp")
       (PosixPath.abspath Sample.cwd Sample.root) = Ok (lit "src/tmp")
  /\ exists self w',
       __init__ Sample.cwd (Sample.project [lit "src/tmp" ++ Sample.nl] Eof)
         Sample.root Sample.out initial_world = (Ok self, w')
       /\ _is_ignored Sample.cwd self (lit "/proj/src/tmp") true = Ok true
       /\ _is_ignored Sample.cwd self (lit "/proj/other/tmp") true = Ok false.
Proof.
  split; [reflexivity|]. split; [reflexivity|].
  destruct (src_tmp_matches_relative_path_only Sample.cwd
              (Sample.project [lit "src/tmp" ++ Sample.nl] Eof)
              Sample.root Sample.out initial_world [] Sample.nl
              eq_refl eq_refl eq_refl)
    as (self & w' & Hinit & Hpats & Hiff & Hother).
  exists self, w'. split; [exact Hinit|].
  assert (Hroot : root_path self = PosixPath.abspath Sample.cwd Sample.root).
  { rewrite init_run in Hinit. now inversion Hinit. }
  split.
  - apply (Hiff (lit "/proj/src/tmp") true (lit "src/tmp")).
    + now rewrite Hroot.
    + now left.
  - apply (Hother (lit "/proj/other/tmp") true).
    + reflexivity.
    + now rewrite Hroot.
Defined.

(** ** A line made of separators *)

Lemma forallb_repeat {A : Type} (p : A -> bool) (x : A) (n : nat) :
  p x = true -> forallb p (repeat x n) = true.
Proof. intros H. induction n as [|n IH]; simpl; [reflexivity|now rewrite H]. Qed.

(** A line holding separators only, with whitespace around, is loaded as
    the empty pattern. *)
Lemma line_separators (pre post : str) (k : nat) :
  forallb isspace pre = true -> forallb isspace post = true ->
  gitignore_line [] (pre ++ repeat PosixPath.sep (S k) ++ post) = [[]].
Proof.
  intros Hpre Hpost. unfold gitignore_line.
  assert (Hstrip : strip (pre ++ repeat PosixPath.sep (S k) ++ post)
                   = repeat PosixPath.sep (S k)).
  { apply (strip_wrapped pre _ post PosixPath.sep PosixPath.sep
             (repeat PosixPath.sep (pred k))); auto.
    destruct k as [|k]; [right; auto|left].
    simpl. now rewrite <- repeat_cons. }
  rewrite Hstrip. cbn [repeat truthy startswith andb app].
  change (N.eqb PosixPath.sep 35) with false. cbn [andb negb].
  f_equal. unfold rstrip, rstrip_by.
  rewrite lstrip_by_all; [reflexivity|].
  rewrite forallb_rev. now apply (forallb_repeat _ _ (S k)).
Qed.

(** The empty pattern matches no path with a base name, so it can be left
    out of the loaded patterns. *)
Lemma empty_pattern_inert (name rel : str) (is_dir : bool)
  (a b : list str) :
  name <> [] -> rel <> [] ->
  ignore_loop name rel is_dir (a ++ [] :: b)
  = ignore_loop name rel is_dir (a ++ b).
Proof.
  intros Hname Hrel.
  apply ignore_loop_skip; change (rstrip (lit "/") []) with (@nil char);
    rewrite fnmatch_empty_pattern.
  - now destruct name.
  - now destruct rel.
  - now destruct name.
Qed.

(** C10, as stated, fails on a path written with a trailing separator:
    the base name of [/proj/build/] is the empty string, which the empty
    pattern matches; so the line [/] in the ignore file turns the answer
    for that path from [false] into [true]. *)
Lemma separator_line_ignores_trailing_separator_path :
  PosixPath.basename (lit "/proj/build/") = []
  /\ exists self1 self2,
       fst (__init__ Sample.cwd (Sample.project [lit "/" ++ Sample.nl] Eof)
              Sample.root Sample.out initial_world) = Ok self1
       /\ fst (__init__ Sample.cwd (Sample.project [] Eof)
                 Sample.root Sample.out initial_world) = Ok self2
       /\ ignore_patterns self1 = ignore_patterns self2 ++ [[]]
       /\ _is_ignored Sample.cwd self1 (lit "/proj/build/") true = Ok true
       /\ _is_ignored Sample.cwd self2 (lit "/proj/build/") true = Ok false.
Proof.
  split; [reflexivity|].
  do 2 eexists. split; [reflexivity|]. split; [reflexivity|].
  split; [reflexivity|]. split; vm_compute; reflexivity.
Qed.

(** C10, amended: a line of the ignore file made of separators only is
    loaded as the empty pattern, and for every path whose base name is not
    empty (every path the traversal joins from a directory and an entry
    name is such) [_is_ignored] answers the same with the line and without
    it. *)
Theorem separator_line_changes_nothing (cwd : str)
  (fs1 fs2 : str -> file_state) (root out : str) (w : world)
  (l1 l2 : list str) (fin : read_end) (pre post : str) (k : nat) :
  forallb isspace pre = true ->
  forallb isspace post = true ->
  fs1 (gitignore_path_of cwd root)
  = Opens (l1 ++ (pre ++ repeat PosixPath.sep (S k) ++ post) :: l2) fin ->
  fs2 (gitignore_path_of cwd root) = Opens (l1 ++ l2) fin ->
  exists self1 self2 w',
    __init__ cwd fs1 root out w = (Ok self1, w')
    /\ __init__ cwd fs2 root out w = (Ok self2, w')
    /\ ignore_patterns self1
       = fold_left gitignore_line l1 default_patterns
         ++ [] :: fold_left gitignore_line l2 []
    /\ ignore_patterns self2
       = fold_left gitignore_line l1 default_patterns
         ++ fold_left gitignore_line l2 []
    /\ forall path is_dir,
         PosixPath.basename path <> [] ->
         _is_ignored cwd self1 path is_dir = _is_ignored cwd self2 path is_dir.
Proof.
  intros Hpre Hpost H1 H2.
  do 3 eexists. rewrite !init_run. cbv zeta. rewrite H1, H2.
  cbn [lines_yielded failure_of].
  rewrite fold_gitignore_line_split, line_separators by assumption.
  rewrite fold_left_app,
    (fold_gitignore_line l2 (fold_left gitignore_line l1 default_patterns)).
  cbn [app].
  split; [reflexivity|]. split; [reflexivity|].
  split; [reflexivity|]. split; [reflexivity|].
  intros path is_dir Hname.
  apply is_ignored_loop_eq; [reflexivity|].
  cbn [root_path ignore_patterns]. intros rel Hrel.
  apply empty_pattern_inert; [exact Hname|].
  eapply relpath_nonempty; eauto.
Qed.

Lemma separator_line_changes_nothing_witness :
  PosixPath.basename (lit "/proj/build") <> []
  /\ exists self1 self2 w',
       __init__ Sample.cwd (Sample.project [lit "/" ++ Sample.nl] Eof)
         Sample.root Sample.out initial_world = (Ok self1, w')
       /\ __init__ Sample.cwd (Sample.project [] Eof)
            Sample.root Sample.out initial_world = (Ok self2, w')
       /\ _is_ignored Sample.cwd self1 (lit "/proj/build") true
          = _is_ignored Sample.cwd self2 (lit "/proj/build") true.
Proof.
  assert (Hname : PosixPath.basename (lit "/proj/build") <> [])
    by (vm_compute; discriminate).
  split; [exact Hname|].
  destruct (separator_line_changes_nothing Sample.cwd
              (Sample.project [lit "/" ++ Sample.nl] Eof)
              (Sample.project [] Eof)
              Sample.root Sample.out initial_world [] [] Eof [] Sample.nl 0
              eq_refl eq_refl eq_refl eq_refl)
    as (self1 & self2 & w' & Hi1 & Hi2 & _ & _ & Hsame).
  exists self1, self2, w'. split; [exact Hi1|]. split; [exact Hi2|].
  apply Hsame. exact Hname.
Defined.

(** The paths the traversal asks about satisfy the condition of the last
    theorem: an entry name is not empty and holds no separator, and it is
    the base name of the joined path. *)
Lemma traversal_path_has_base_name (directory entry : str) :
  entry <> [] -> contains PosixPath.sep entry = false ->
  PosixPath.basename (PosixPath.join directory [entry]) <> [].
Proof. intros Hne Hsep. now rewrite basename_join. Qed.

(* ================================================================== *)
(** * Further properties of the ignore matcher *)
(* ================================================================== *)

Lemma commonprefix_self (l : list str) : PosixPath.commonprefix l l = l.
Proof.
  induction l as [|x l IH]; simpl; [reflexivity|].
  now rewrite str_eqb_refl, IH.
Qed.

Lemma relpath_self (cwd p : str) :
  p <> [] -> PosixPath.relpath cwd p p = Ok PosixPath.curdir.
Proof.
  intros Hp. unfold PosixPath.relpath.
  destruct p as [|c p]; [congruence|]. cbn [truthy negb].
  rewrite commonprefix_self, Nat.sub_diag, skipn_all. reflexivity.
Qed.

Lemma normpath_nonempty (p : str) : PosixPath.normpath p <> [].
Proof.
  unfold PosixPath.normpath.
  destruct (negb (truthy p)); [discriminate|].
  destruct (repeat PosixPath.sep (PosixPath.initial_slashes p)
            ++ PyStr.join [PosixPath.sep]
                 (fold_left (PosixPath.norm_step (PosixPath.initial_slashes p))
                    (split PosixPath.sep p) [])) eqn:E; simpl; discriminate.
Qed.

Lemma abspath_nonempty (cwd p : str) : PosixPath.abspath cwd p <> [].
Proof. apply normpath_nonempty. Qed.

(** [relpath] raises for the empty path and for no other. *)
Lemma relpath_total (cwd path start : str) :
  path <> [] -> exists rel, PosixPath.relpath cwd path start = Ok rel.
Proof.
  intros Hp. unfold PosixPath.relpath.
  destruct path as [|c path]; [congruence|]. cbn [truthy negb].
  destruct (_ ++ _); eauto.
Qed.

(** X1: the scan root is never ignored, whatever the ignore file holds
    (a line [*] included) and whatever the flag. *)
Theorem root_is_never_ignored (cwd : str) (fs : str -> file_state)
  (root out : str) (w : world) (is_dir : bool) :
  exists self w',
    __init__ cwd fs root out w = (Ok self, w')
    /\ _is_ignored cwd self (root_path self) is_dir = Ok false.
Proof.
  do 2 eexists. rewrite init_run. cbv zeta. split; [reflexivity|].
  unfold _is_ignored. cbn [root_path].
  rewrite relpath_self by apply abspath_nonempty. reflexivity.
Qed.

(** X2: [_is_ignored] returns an answer for every path but the empty one,
    for which it raises [ValueError]; patterns and flag play no part. *)
Theorem is_ignored_raises_on_empty_path_only (cwd : str)
  (self : ProjectScanner) (path : str) (is_dir : bool) :
  (path = [] <->
   exists e, _is_ignored cwd self path is_dir = Raise e
             /\ exn_cls e = ValueError)
  /\ (path <> [] <-> exists b, _is_ignored cwd self path is_dir = Ok b).
Proof.
  split; split.
  - intros ->. eexists. split; reflexivity.
  - intros (e & H & _). destruct path as [|c path]; [reflexivity|].
    destruct (relpath_total cwd (c :: path) (root_path self)) as (rel & Hr);
      [discriminate|].
    unfold _is_ignored in H. rewrite Hr in H.
    destruct (str_eqb rel (lit ".")); discriminate.
  - intros Hp. destruct (relpath_total cwd path (root_path self) Hp)
      as (rel & Hr).
    unfold _is_ignored. rewrite Hr.
    destruct (str_eqb rel (lit ".")); eauto.
  - intros (b & H) ->. discriminate H.
Qed.

(** The loop answers [true] exactly when some pattern passes one of the
    three tests. *)
Lemma ignore_loop_existsb (name rel : str) (is_dir : bool)
  (patterns : list str) :
  ignore_loop name rel is_dir patterns
  = existsb (pattern_rule name rel is_dir) patterns.
Proof.
  induction patterns as [|p ps IH]; simpl; [reflexivity|].
  unfold pattern_rule at 1.
  destruct (Fnmatch.fnmatch name p); [reflexivity|].
  destruct (Fnmatch.fnmatch rel p); [reflexivity|].
  destruct (is_dir && _); [reflexivity|exact IH].
Qed.

Lemma ignore_loop_incl (name rel : str) (is_dir : bool)
  (ps qs : list str) :
  incl ps qs ->
  ignore_loop name rel is_dir ps = true ->
  ignore_loop name rel is_dir qs = true.
Proof.
  intros Hincl. rewrite !ignore_loop_existsb, !existsb_exists.
  intros (p & Hp & Hm). exists p. split; [now apply Hincl|exact Hm].
Qed.

Lemma is_ignored_true_inv (cwd : str) (self : ProjectScanner) (path : str)
  (is_dir : bool) :
  _is_ignored cwd self path is_dir = Ok true ->
  exists rel,
    PosixPath.relpath cwd path (root_path self) = Ok rel
    /\ str_eqb rel (lit ".") = false
    /\ ignore_loop (PosixPath.basename path) rel is_dir (ignore_patterns self)
       = true.
Proof.
  unfold _is_ignored.
  destruct (PosixPath.relpath cwd path (root_path self)) as [rel|e];
    [|discriminate].
  destruct (str_eqb rel (lit ".")) eqn:E; [discriminate|].
  intros [= H]. now exists rel.
Qed.

Lemma is_ignored_incl (cwd : str) (self1 self2 : ProjectScanner)
  (path : str) (is_dir : bool) :
  root_path self1 = root_path self2 ->
  incl (ignore_patterns self1) (ignore_patterns self2) ->
  _is_ignored cwd self1 path is_dir = Ok true ->
  _is_ignored cwd self2 path is_dir = Ok true.
Proof.
  intros Hroot Hincl H.
  apply is_ignored_true_inv in H as (rel & Hrel & Hdot & Hloop).
  unfold _is_ignored. rewrite <- Hroot, Hrel, Hdot.
  f_equal. eapply ignore_loop_incl; eauto.
Qed.

(** X3: the answer of [_is_ignored] depends on the patterns as a set: two
    scanners with the same root whose lists hold the same patterns, in
    any order and with any repetitions, answer alike on every path. *)
Theorem pattern_order_is_irrelevant (cwd : str) (self1 self2 : ProjectScanner)
  (path : str) (is_dir : bool) :
  root_path self1 = root_path self2 ->
  incl (ignore_patterns self1) (ignore_patterns self2) ->
  incl (ignore_patterns self2) (ignore_patterns self1) ->
  _is_ignored cwd self1 path is_dir = _is_ignored cwd self2 path is_dir.
Proof.
  intros Hroot H12 H21.
  apply is_ignored_loop_eq; [exact Hroot|]. intros rel _.
  destruct (ignore_loop (PosixPath.basename path) rel is_dir
              (ignore_patterns self1)) eqn:E1.
  - symmetry. eapply ignore_loop_incl; eauto.
  - destruct (ignore_loop (PosixPath.basename path) rel is_dir
                (ignore_patterns self2)) eqn:E2; [|reflexivity].
    rewrite (ignore_loop_incl _ _ _ _ _ H21 E2) in E1. discriminate.
Qed.

Lemma pattern_order_is_irrelevant_witness :
  _is_ignored Sample.cwd
    {| root_path := Sample.root; output_file := Sample.out;
       ignore_patterns := [lit "build"; lit "*.log"] |}
    (lit "/proj/build") true
  = _is_ignored Sample.cwd
      {| root_path := Sample.root; output_file := Sample.out;
         ignore_patterns := [lit "*.log"; lit "build"; lit "*.log"] |}
      (lit "/proj/build") true.
Proof.
  apply (pattern_order_is_irrelevant Sample.cwd
           {| root_path := Sample.root; output_file := Sample.out;
              ignore_patterns := [lit "build"; lit "*.log"] |}
           {| root_path := Sample.root; output_file := Sample.out;
              ignore_patterns := [lit "*.log"; lit "build"; lit "*.log"] |}).
  - reflexivity.
  - intros p [<- | [<- | []]]; simpl; tauto.
  - intros p [<- | [<- | [<- | []]]]; simpl; tauto.
Defined.

(** X4: the ignore file can only add to what is ignored.  A path that the
    built-in patterns ignore is ignored by the scanner [__init__] makes,
    whatever the ignore file holds: no line of it takes a pattern away. *)
Theorem ignore_file_never_unignores (cwd : str) (fs : str -> file_state)
  (root out : str) (w : world) (path : str) (is_dir : bool) :
  _is_ignored cwd (default_scanner (PosixPath.abspath cwd root) out)
    path is_dir = Ok true ->
  exists self w',
    __init__ cwd fs root out w = (Ok self, w')
    /\ _is_ignored cwd self path is_dir = Ok true.
Proof.
  intros H. do 2 eexists. rewrite init_run. cbv zeta.
  split; [reflexivity|].
  eapply is_ignored_incl; [| |exact H]; [reflexivity|].
  cbn [ignore_patterns default_scanner]. rewrite fold_gitignore_line.
  now apply incl_appl, incl_refl.
Qed.

Lemma ignore_file_never_unignores_witness :
  exists self w',
    __init__ Sample.cwd (Sample.project [lit "!venv" ++ Sample.nl] Eof)
      Sample.root Sample.out initial_world = (Ok self, w')
    /\ _is_ignored Sample.cwd self (lit "/proj/venv") true = Ok true.
Proof.
  apply (ignore_file_never_unignores Sample.cwd
           (Sample.project [lit "!venv" ++ Sample.nl] Eof)
           Sample.root Sample.out initial_world (lit "/proj/venv") true).
  reflexivity.
Defined.

(** A line that is blank, or a comment, leaves the patterns as they are. *)
Lemma gitignore_line_skipped (patterns : list str) (line : str) :
  strip line = [] \/ startswith (strip line) (lit "#") = true ->
  gitignore_line patterns line = patterns.
Proof.
  intros [H | H]; unfold gitignore_line; rewrite H; [reflexivity|].
  now rewrite andb_false_r.
Qed.

(** X5: a blank line and a comment line (one whose first character after
    the leading whitespace is [#]) load nothing: the ignore file with such
    a line and the file without it make the same scanner and print the
    same. *)
Theorem blank_and_comment_lines_load_nothing (cwd : str)
  (fs1 fs2 : str -> file_state) (root out : str) (w : world)
  (l1 l2 : list str) (line : str) (fin : read_end) :
  strip line = [] \/ startswith (strip line) (lit "#") = true ->
  fs1 (gitignore_path_of cwd root) = Opens (l1 ++ line :: l2) fin ->
  fs2 (gitignore_path_of cwd root) = Opens (l1 ++ l2) fin ->
  __init__ cwd fs1 root out w = __init__ cwd fs2 root out w.
Proof.
  intros Hline H1 H2. rewrite !init_run. cbv zeta. rewrite H1, H2.
  cbn [lines_yielded failure_of].
  rewrite !fold_left_app. cbn [fold_left].
  now rewrite (gitignore_line_skipped _ _ Hline).
Qed.

Lemma blank_and_comment_lines_load_nothing_witness :
  __init__ Sample.cwd
    (Sample.project [lit "build" ++ Sample.nl;
                     lit "  # caches" ++ Sample.nl;
                     lit "dist" ++ Sample.nl] Eof)
    Sample.root Sample.out initial_world
  = __init__ Sample.cwd
      (Sample.project [lit "build" ++ Sample.nl; lit "dist" ++ Sample.nl] Eof)
      Sample.root Sample.out initial_world.
Proof.
  apply (blank_and_comment_lines_load_nothing Sample.cwd
           (Sample.project [lit "build" ++ Sample.nl;
                            lit "  # caches" ++ Sample.nl;
                            lit "dist" ++ Sample.nl] Eof)
           (Sample.project [lit "build" ++ Sample.nl;
                            lit "dist" ++ Sample.nl] Eof)
           Sample.root Sample.out initial_world
           [lit "build" ++ Sample.nl] [lit "dist" ++ Sample.nl]
           (lit "  # caches" ++ Sample.nl) Eof).
  - right. reflexivity.
  - reflexivity.
  - reflexivity.
Defined.

Lemma fold_gitignore_length (lines : list str) :
  length (fold_left gitignore_line lines []) <= length lines.
Proof.
  induction lines as [|l ls IH]; simpl; [lia|].
  rewrite fold_gitignore_line, length_app.
  unfold gitignore_line at 1.
  destruct (truthy (strip l) && negb (startswith (strip l) (lit "#")));
    simpl; lia.
Qed.

(** X6: what [_load_gitignore] always gives.  It returns; the loaded list
    begins with the built-in patterns, holds after them at most one
    pattern for each line read, and none of these ends in a separator; the
    parser is not called; and the console is left as it was exactly when
    no reading failed. *)
Theorem load_gitignore_invariants (fs : str -> file_state) (root : str)
  (w : world) :
  exists extra w',
    _load_gitignore fs root w = (Ok (default_patterns ++ extra), w')
    /\ length extra
       <= length (lines_yielded (fs (PosixPath.join root [lit ".gitignore"])))
    /\ Forall no_trailing_sep extra
    /\ parsed w' = parsed w
    /\ (console w' = console w
        <-> failure_of (fs (PosixPath.join root [lit ".gitignore"])) = None).
Proof.
  do 2 eexists. rewrite load_gitignore_run. cbv zeta.
  rewrite fold_gitignore_line.
  split; [reflexivity|]. split; [apply fold_gitignore_length|].
  split; [apply fold_gitignore_no_trailing_sep; constructor|].
  destruct (failure_of (fs (PosixPath.join root [lit ".gitignore"])))
    as [e|]; cbn [console parsed].
  - split; [reflexivity|]. split; [|discriminate].
    intros H. apply (f_equal (@length str)) in H.
    rewrite length_app in H. simpl in H. lia.
  - split; [reflexivity|]. split; reflexivity.
Qed.

(** ** Patterns with a star *)

(** A star followed by fixed pieces matches a string when the pieces
    match one of its ends. *)
Lemma matches_star (ts : list Fnmatch.token) (name : str) :
  Fnmatch.matches (Fnmatch.STAR :: ts) name = true
  <-> exists stem rest, name = stem ++ rest /\ Fnmatch.matches ts rest = true.
Proof.
  cbn [Fnmatch.matches Fnmatch.is_STAR].
  induction name as [|c name IH].
  - split.
    + intros H. rewrite orb_false_r in H. now exists [], [].
    + intros (stem & rest & E & H). symmetry in E.
      apply app_eq_nil in E as [-> ->]. now rewrite H.
  - split.
    + intros H. apply orb_true_iff in H as [H | H].
      * now exists [], (c :: name).
      * apply IH in H as (stem & rest & -> & H).
        now exists (c :: stem), rest.
    + intros (stem & rest & E & H). apply orb_true_iff.
      destruct stem as [|x stem].
      * left. simpl in E. now rewrite E.
      * right. injection E as -> ->. apply IH. now exists stem, rest.
Qed.

Lemma translate_star_plain (suffix : str) :
  plain suffix = true ->
  Fnmatch.translate (Fnmatch.star :: suffix)
  = Fnmatch.STAR :: map Fnmatch.Literal suffix.
Proof.
  intros H. unfold Fnmatch.translate. cbn [Fnmatch.translate_loop].
  change (N.eqb Fnmatch.star Fnmatch.star) with true. cbv iota.
  now rewrite translate_loop_plain.
Qed.

(** A pattern made of a star and a wildcard-free text matches exactly the
    strings that end with that text. *)
Lemma fnmatch_star_suffix (name suffix : str) :
  plain suffix = true ->
  Fnmatch.fnmatch name (Fnmatch.star :: suffix) = true
  <-> exists stem, name = stem ++ suffix.
Proof.
  intros H. unfold Fnmatch.fnmatch, Fnmatch.fnmatchcase.
  rewrite translate_star_plain by assumption. rewrite matches_star.
  split.
  - intros (stem & rest & -> & Hm). rewrite matches_literals in Hm.
    apply str_eqb_eq in Hm as ->. now exists stem.
  - intros (stem & ->). exists stem, suffix. split; [reflexivity|].
    rewrite matches_literals. apply str_eqb_refl.
Qed.

(** X7: where the patterns hold a star followed by a wildcard-free text
    (as the built-in [*.pyc] and [*.pyo]), every path other than the root
    whose base name ends with that text is ignored, at any depth and for
    both values of the flag. *)
Theorem star_suffix_pattern_ignores (cwd : str) (self : ProjectScanner)
  (path rel stem suffix : str) (is_dir : bool) :
  plain suffix = true ->
  In (Fnmatch.star :: suffix) (ignore_patterns self) ->
  PosixPath.basename path = stem ++ suffix ->
  PosixPath.relpath cwd path (root_path self) = Ok rel ->
  rel <> lit "." ->
  _is_ignored cwd self path is_dir = Ok true.
Proof.
  intros Hplain Hin Hname Hrel Hdot.
  rewrite (is_ignored_run _ _ _ _ rel) by exact Hrel.
  apply str_eqb_neq in Hdot. rewrite Hdot. cbn [negb andb]. f_equal.
  apply ignore_loop_name with (p := Fnmatch.star :: suffix); [exact Hin|].
  apply fnmatch_star_suffix; [exact Hplain|]. now exists stem.
Qed.

Lemma star_suffix_pattern_ignores_witness :
  _is_ignored Sample.cwd (default_scanner Sample.root Sample.out)
    (lit "/proj/pkg/sub/mod.pyc") false = Ok true.
Proof.
  apply (star_suffix_pattern_ignores Sample.cwd
           (default_scanner Sample.root Sample.out)
           (lit "/proj/pkg/sub/mod.pyc") (lit "pkg/sub/mod.pyc")
           (lit "mod") (lit ".pyc") false).
  - reflexivity.
  - simpl. tauto.
  - reflexivity.
  - reflexivity.
  - vm_compute. discriminate.
Defined.

(* ================================================================== *)
(** * Further properties of the definition extractor *)
(* ================================================================== *)

Lemma entry_of_length (n : node) :
  length (entry_of n) = if is_definition n then 1 else 0.
Proof.
  unfold entry_of, visit, is_definition. now destruct (node_cls n).
Qed.

Lemma count_definitions_eq (n : node) :
  count_definitions n
  = (if is_definition n then 1 else 0)
    + list_sum (map count_definitions (iter_child_nodes n)).
Proof. now destruct n. Qed.

Lemma walk_loop_entries_length (fuel : nat) :
  forall todo : list node,
    total todo <= fuel ->
    length (flat_map entry_of (walk_loop fuel todo))
    = list_sum (map count_definitions todo).
Proof.
  induction fuel as [|fuel IH]; intros todo H.
  - destruct todo as [|t rest]; [reflexivity|].
    rewrite total_cons in H. lia.
  - destruct todo as [|t rest]; [reflexivity|].
    rewrite total_cons in H.
    cbn [walk_loop flat_map]. rewrite length_app, entry_of_length, IH by lia.
    rewrite map_app, list_sum_app.
    change (list_sum (map count_definitions (t :: rest)))
      with (count_definitions t + list_sum (map count_definitions rest)).
    rewrite (count_definitions_eq t). lia.
Qed.

(** X8: for a file that reads and parses, the extractor returns one entry
    for each function, asynchronous function and class definition of the
    tree, nested ones included, and none for any other node: as many
    entries as the tree has definitions. *)
Theorem one_entry_per_definition (fs : str -> file_state)
  (parser : str -> result node) (path : str) (w : world)
  (content : str) (tree : node) :
  file_content (fs path) = Ok content ->
  strip content <> [] ->
  parser content = Ok tree ->
  exists defs,
    fst (_get_definitions fs parser path w) = Ok defs
    /\ length defs = count_definitions tree.
Proof.
  intros Hread Hblank Hparse.
  exists (flat_map entry_of (walk tree)).
  split; [eapply get_definitions_parsed; eauto|].
  unfold walk. rewrite walk_loop_entries_length.
  - simpl. lia.
  - unfold total. simpl. lia.
Qed.

Lemma one_entry_per_definition_witness :
  count_definitions Demo.class_tree = 3
  /\ exists defs,
       fst (_get_definitions Demo.files Demo.parser (lit "/proj/pkg/m.py")
              initial_world) = Ok defs
       /\ length defs = count_definitions Demo.class_tree.
Proof.
  split; [reflexivity|].
  apply (one_entry_per_definition Demo.files Demo.parser
           (lit "/proj/pkg/m.py") initial_world Demo.class_text
           Demo.class_tree).
  - reflexivity.
  - vm_compute. discriminate.
  - reflexivity.
Defined.

(** The walk goes level by level: the nodes waiting in the queue are
    yielded, in order, before any of their children. *)
Lemma walk_loop_level (a : list node) :
  forall (b : list node) (fuel : nat),
    total (a ++ b) <= fuel ->
    walk_loop fuel (a ++ b)
    = a ++ walk_loop (fuel - length a) (b ++ flat_map iter_child_nodes a).
Proof.
  induction a as [|x a IH]; intros b fuel H.
  - simpl. now rewrite Nat.sub_0_r, app_nil_r.
  - cbn [app] in H. rewrite total_cons in H.
    destruct fuel as [|fuel]; [lia|].
    cbn [app walk_loop flat_map length Nat.sub]. f_equal.
    rewrite <- app_assoc. rewrite IH by (rewrite <- app_assoc in H; lia).
    now rewrite <- app_assoc.
Qed.

Lemma total_children (q : list node) :
  total q = length q + total (flat_map iter_child_nodes q).
Proof.
  induction q as [|[c children] q IH]; [reflexivity|].
  cbn [flat_map iter_child_nodes length]. rewrite total_app.
  change (total (Node c children :: q))
    with (S (list_sum (map size children)) + total q).
  rewrite IH. unfold total. lia.
Qed.

Lemma walk_top_levels (t : node) :
  walk t
  = t :: iter_child_nodes t
    ++ walk_loop (total (flat_map iter_child_nodes (iter_child_nodes t)))
         (flat_map iter_child_nodes (iter_child_nodes t)).
Proof.
  unfold walk.
  assert (Hsize : size t = S (total (iter_child_nodes t))).
  { destruct t as [c children]. reflexivity. }
  pose proof (total_children (iter_child_nodes t)) as Hch.
  change (walk_loop (size t) [t]) with (walk_loop (size t) ([t] ++ [])).
  rewrite walk_loop_level by (unfold total; simpl; lia).
  cbn [app length flat_map]. f_equal.
  rewrite walk_loop_level by (rewrite app_nil_r; lia).
  f_equal. cbn [app]. apply walk_loop_fuel. lia.
Qed.

(** X9: the entries come level by level, not in source order: first the
    entry of the root (none for a module), then those of its children in
    their order (the top-level definitions), and only then those of all
    deeper nodes; a method of a class thus comes after every top-level
    definition, also the ones written after the class. *)
Theorem top_level_definitions_come_first (fs : str -> file_state)
  (parser : str -> result node) (path : str) (w : world)
  (content : str) (tree : node) :
  file_content (fs path) = Ok content ->
  strip content <> [] ->
  parser content = Ok tree ->
  let below := flat_map iter_child_nodes (iter_child_nodes tree) in
  fst (_get_definitions fs parser path w)
  = Ok (entry_of tree
        ++ flat_map entry_of (iter_child_nodes tree)
        ++ flat_map entry_of (walk_loop (total below) below)).
Proof.
  intros Hread Hblank Hparse below.
  rewrite (get_definitions_parsed fs parser path w content tree) by assumption.
  rewrite walk_top_levels. cbn [flat_map]. now rewrite flat_map_app.
Qed.

Lemma top_level_definitions_come_first_witness :
  fst (_get_definitions Demo.files Demo.parser (lit "/proj/pkg/m.py")
         initial_world)
  = Ok [package_marker ++ lit "class C"; bolt_marker ++ lit "def g";
        bolt_marker ++ lit "def m"].
Proof.
  rewrite (top_level_definitions_come_first Demo.files Demo.parser
             (lit "/proj/pkg/m.py") initial_world Demo.class_text
             Demo.class_tree).
  - reflexivity.
  - reflexivity.
  - vm_compute. discriminate.
  - reflexivity.
Defined.

(* ================================================================== *)
(** * Facts about the traversal *)
(* ================================================================== *)

Lemma dtree_induction (P : dtree -> Prop) :
  P NotWalked ->
  (forall dirs files, Forall (fun e => P (snd e)) dirs -> P (Dir dirs files)) ->
  forall t, P t.
Proof.
  intros Hn Hd. fix IH 1. intros [|dirs files]; [exact Hn|].
  apply Hd. induction dirs as [|[d sub] rest IHr]; constructor;
    [apply IH|exact IHr].
Qed.











(** The comprehension over [dirs] leaves the state alone; when it returns,
    it has kept the names that are not ignored, in their order. *)
Lemma filter_dirs_kept (cwd : str) (self : ProjectScanner) (root : str)
  (dirs : list str) (st st' : scan_state) (kept : list str) :
  filter_dirs cwd self root dirs st = (Ok kept, st') ->
  st' = st
  /\ forall d, In d kept ->
       _is_ignored cwd self (PosixPath.join root [d]) true = Ok false.
Proof.
  revert kept st'. induction dirs as [|d dirs IH]; intros kept st' H.
  - simpl in H. unfold sret in H. injection H as <- <-.
    split; [reflexivity|intros d []].
  - cbn [filter_dirs] in H. unfold sbind, of_result in H.
    destruct (_is_ignored cwd self (PosixPath.join root [d]) true)
      as [b|e] eqn:Ed; cbv iota beta in H; [|discriminate].
    destruct (filter_dirs cwd self root dirs st) as [[kept0|e] st0] eqn:Er;
      cbv iota beta in H; [|discriminate].
    destruct (IH kept0 st0 eq_refl) as [-> Hk].
    unfold sret in H. injection H as <- <-. split; [reflexivity|].
    destruct b; [exact Hk|].
    intros x [<- | Hx]; [exact Ed|now apply Hk].
Qed.







(* ================================================================== *)
(** * Properties of [log] and [scan] *)
(* ================================================================== *)




(** The scan of the sample project, line by line: [a.py] with its
    function, the folder [pkg] with [m.py] and its three definitions;
    [venv], [README.md], [notes.txt] and [old.pyc] leave no line. *)
Lemma demo_scan_output :
  output (snd (scan Sample.cwd Demo.files Demo.parser Demo.dir_at
                 Demo.writable Demo.scanner
                 (initial_scan_state initial_world [])))
  = concat (map line_text
      [ lit "Project Tree for: proj";
        lit "========================================";
        lit "    " ++ file_mark ++ lit "a.py";
        lit "        " ++ definition_mark ++ bolt_marker ++ lit "def foo";
        lit "    " ++ folder_mark ++ lit "pkg/";
        lit "        " ++ file_mark ++ lit "m.py";
        lit "            " ++ definition_mark ++ package_marker ++ lit "class C";
        lit "            " ++ definition_mark ++ bolt_marker ++ lit "def g";
        lit "            " ++ definition_mark ++ bolt_marker ++ lit "def m" ]).
Proof. vm_compute. reflexivity. Qed.

(** What the body of the loop leaves in [dirs] is not ignored. *)
Lemma scan_dir_kept (cwd : str) (fs : str -> file_state)
  (parser : str -> result node) (self : ProjectScanner) (root : str)
  (dirs files : list str) (st st' : scan_state) (kept : list str) :
  scan_dir cwd fs parser self root dirs files st = (Ok kept, st') ->
  forall d, In d kept ->
    _is_ignored cwd self (PosixPath.join root [d]) true = Ok false.
Proof.
  unfold scan_dir, sbind. intros H.
  destruct (filter_dirs cwd self root dirs st) as [[kept0|e] st0] eqn:Ef;
    [|discriminate].
  apply filter_dirs_kept in Ef as [-> Hk].
  destruct ((if negb (str_eqb root (root_path self))
             then log (str_mul (str_mul (lit " ") 4) (level_of self root)
                       ++ folder_mark ++ PosixPath.basename root ++ lit "/")
             else sret tt) st) as [[u|e] st1]; [|discriminate].
  destruct (for_each (scan_file cwd fs parser self root (level_of self root))
              files st1) as [[u'|e] st2]; [|discriminate].
  unfold sret in H. injection H as <- _. exact Hk.
Qed.

Lemma existsb_str_eqb (d : str) (l : list str) :
  existsb (str_eqb d) l = true <-> In d l.
Proof.
  rewrite existsb_exists. split.
  - intros (x & Hx & E). apply str_eqb_eq in E. now subst.
  - intros H. exists d. split; [exact H|apply str_eqb_refl].
Qed.

(** Going down gives the same result on entries alike outside what is
    ignored, when no kept name is ignored. *)
Lemma descend_same (cwd : str) (self : ProjectScanner)
  (walk_into : str -> dtree -> Scan unit) (top : str) (kept : list str)
  (dirs dirs' : list (str * dtree)) :
  (forall d, In d kept ->
     _is_ignored cwd self (PosixPath.join top [d]) true = Ok false) ->
  Forall (fun e => forall top' t',
            same_outside_ignored cwd self top' (snd e) t' ->
            forall st, walk_into top' (snd e) st = walk_into top' t' st) dirs ->
  Forall2
    (fun e e' =>
       fst e = fst e'
       /\ (_is_ignored cwd self (PosixPath.join top [fst e]) true = Ok true
           \/ same_outside_ignored cwd self (PosixPath.join top [fst e])
                (snd e) (snd e')))
    dirs dirs' ->
  forall st, descend walk_into top kept dirs st
             = descend walk_into top kept dirs' st.
Proof.
  intros Hkept Hall Hrel. revert Hall.
  induction Hrel as [|[d sub] [d' sub'] rest rest' [Hname Hsub] _ IH];
    intros Hall st; [reflexivity|].
  simpl in Hname. subst d'.
  inversion Hall as [|? ? Hhead Htail]; subst.
  cbn [fst snd] in Hhead, Hsub.
  cbn [descend]. unfold sbind.
  destruct (existsb (str_eqb d) kept) eqn:Ek.
  - apply existsb_str_eqb in Ek. apply Hkept in Ek.
    destruct Hsub as [Hign | Hsame]; [congruence|].
    rewrite (Hhead _ _ Hsame st).
    destruct (walk_into (PosixPath.join top [d]) sub' st) as [[u|e] st1];
      [apply IH; exact Htail|reflexivity].
  - unfold sret. apply IH. exact Htail.
Qed.

Lemma map_fst_same (cwd : str) (self : ProjectScanner) (top : str)
  (dirs dirs' : list (str * dtree)) :
  Forall2
    (fun e e' =>
       fst e = fst e'
       /\ (_is_ignored cwd self (PosixPath.join top [fst e]) true = Ok true
           \/ same_outside_ignored cwd self (PosixPath.join top [fst e])
                (snd e) (snd e')))
    dirs dirs' ->
  map fst dirs = map fst dirs'.
Proof.
  induction 1 as [|e e' rest rest' [Hname _] _ IH]; [reflexivity|].
  simpl. now rewrite Hname, IH.
Qed.

(** The loop of [scan] never looks below an ignored directory. *)
Lemma os_walk_same (cwd : str) (fs : str -> file_state)
  (parser : str -> result node) (self : ProjectScanner) (t : dtree) :
  forall top t',
    same_outside_ignored cwd self top t t' ->
    forall st,
      os_walk (scan_dir cwd fs parser self) top t st
      = os_walk (scan_dir cwd fs parser self) top t' st.
Proof.
  induction t as [|dirs files IH] using dtree_induction;
    intros top t' Hrel st.
  - inversion Hrel; subst. reflexivity.
  - inversion Hrel as [|? ? dirs' ? Hall]; subst.
    cbn [os_walk]. unfold sbind.
    rewrite <- (map_fst_same _ _ _ _ _ Hall).
    destruct (scan_dir cwd fs parser self top (map fst dirs) files st)
      as [[kept|e] st1] eqn:Ebody; [|reflexivity].
    apply (descend_same cwd self); [|exact IH|exact Hall].
    eapply scan_dir_kept; eauto.
Qed.

(** X11: what lies below an ignored directory plays no part in a scan.
    Two directory trees that are alike outside the directories the
    scanner ignores (at any depth) give the same run of [scan]: the same
    result, console, parser calls and output file.  The pruned
    directories are not listed, their files are not read. *)
Theorem ignored_directories_are_not_walked (cwd : str)
  (fs : str -> file_state) (parser : str -> result node)
  (dir_at1 dir_at2 : str -> dtree) (open_error : str -> option exn)
  (self : ProjectScanner) (st : scan_state) :
  same_outside_ignored cwd self (root_path self)
    (dir_at1 (root_path self)) (dir_at2 (root_path self)) ->
  scan cwd fs parser dir_at1 open_error self st
  = scan cwd fs parser dir_at2 open_error self st.
Proof.
  intros Hrel. unfold scan, sbind, lift, print, with_output.
  destruct (open_error (output_file self)); [reflexivity|].
  cbv beta iota zeta.
  match goal with
  | |- context [log ?h ?s] => destruct (log h s) as [[[]|e] s1]
  end; [|reflexivity].
  match goal with
  | |- context [log ?r s1] => destruct (log r s1) as [[[]|e] s2]
  end; [|reflexivity].
  now rewrite (os_walk_same cwd fs parser self _ _ _ Hrel s2).
Qed.

Lemma same_outside_ignored_refl (cwd : str) (self : ProjectScanner)
  (t : dtree) : forall top, same_outside_ignored cwd self top t t.
Proof.
  induction t as [|dirs files IH] using dtree_induction; intros top.
  - constructor.
  - constructor. induction IH as [|e rest He _ IHrest]; constructor.
    + split; [reflexivity|]. right. apply He.
    + exact IHrest.
Qed.

Lemma ignored_directories_are_not_walked_witness :
  scan Sample.cwd Demo.files Demo.parser Demo.dir_at Demo.writable
    Demo.scanner (initial_scan_state initial_world [])
  = scan Sample.cwd Demo.files Demo.parser Demo.full_dir_at Demo.writable
      Demo.scanner (initial_scan_state initial_world []).
Proof.
  apply (ignored_directories_are_not_walked Sample.cwd Demo.files Demo.parser
           Demo.dir_at Demo.full_dir_at Demo.writable Demo.scanner
           (initial_scan_state initial_world [])).
  apply (soi_dir Sample.cwd Demo.scanner (lit "/proj")
           [(lit "venv", Demo.venv_tree); (lit "pkg", Demo.pkg_tree)]
           [(lit "venv", Demo.full_venv_tree); (lit "pkg", Demo.pkg_tree)]).
  constructor; [|constructor; [|constructor]].
  - split; [reflexivity|]. left. reflexivity.
  - split; [reflexivity|]. right. apply same_outside_ignored_refl.
Defined.

(** [for x in xs] over a list with one element that does nothing. *)
Lemma for_each_skip {A : Type} (body : A -> Scan unit) (a b : list A) (x : A) :
  (forall st, body x st = (Ok tt, st)) ->
  forall st, for_each body (a ++ x :: b) st = for_each body (a ++ b) st.
Proof.
  intros Hx. induction a as [|y a IH]; intros st; cbn [app for_each];
    unfold sbind.
  - now rewrite Hx.
  - destruct (body y st) as [[u|e] st1]; [apply IH|reflexivity].
Qed.

Lemma scan_file_passed_over (cwd : str) (fs : str -> file_state)
  (parser : str -> result node) (self : ProjectScanner) (root : str)
  (level : nat) (file : str) (st : scan_state) :
  passed_over cwd self root file ->
  scan_file cwd fs parser self root level file st = (Ok tt, st).
Proof.
  unfold scan_file, sbind, of_result.
  intros [H | [H Hpy]]; rewrite H; [reflexivity|]. now rewrite Hpy.
Qed.

(** X12: a file that is ignored, or whose name does not end in [.py],
    leaves no trace: in any directory of the walk, the loop of [scan] runs
    the same with the file in the listing and without it; the file is not
    logged, not opened and not parsed. *)
Theorem passed_over_files_leave_no_trace (cwd : str)
  (fs : str -> file_state) (parser : str -> result node)
  (self : ProjectScanner) (top : str) (dirs : list (str * dtree))
  (before after : list str) (file : str) (st : scan_state) :
  passed_over cwd self top file ->
  os_walk (scan_dir cwd fs parser self) top
    (Dir dirs (before ++ file :: after)) st
  = os_walk (scan_dir cwd fs parser self) top (Dir dirs (before ++ after)) st.
Proof.
  intros Hfile. cbn [os_walk]. unfold sbind, scan_dir. unfold sbind.
  destruct (filter_dirs cwd self top (map fst dirs) st) as [[kept|e] st0];
    [|reflexivity].
  match goal with
  | |- context [(if ?c then ?a else ?b) st0] =>
      destruct ((if c then a else b) st0) as [[u|e] st1]
  end; [|reflexivity].
  rewrite (for_each_skip _ before after file); [reflexivity|].
  intros st'. now apply scan_file_passed_over.
Qed.

Lemma passed_over_files_leave_no_trace_witness :
  os_walk (scan_dir Sample.cwd Demo.files Demo.parser Demo.scanner)
    (lit "/proj/pkg")
    (Dir [] ([lit "m.py"] ++ lit "notes.txt" :: [lit "old.pyc"]))
    {| sw := initial_world; file_handle := Opened; output := [] |}
  = os_walk (scan_dir Sample.cwd Demo.files Demo.parser Demo.scanner)
      (lit "/proj/pkg") (Dir [] ([lit "m.py"] ++ [lit "old.pyc"]))
      {| sw := initial_world; file_handle := Opened; output := [] |}.
Proof.
  apply (passed_over_files_leave_no_trace Sample.cwd Demo.files Demo.parser
           Demo.scanner (lit "/proj/pkg") [] [lit "m.py"] [lit "old.pyc"]
           (lit "notes.txt")).
  right. split; reflexivity.
Defined.

(** X13: when the output file cannot be opened for writing, [scan] raises
    the error of [open] after printing its two opening lines and nothing
    else: no directory is walked, no file parsed, and the output file and
    the handle are left as they were. *)
Theorem scan_raises_when_output_does_not_open (cwd : str)
  (fs : str -> file_state) (parser : str -> result node)
  (dir_at : str -> dtree) (open_error : str -> option exn)
  (self : ProjectScanner) (st : scan_state) (e : exn) :
  open_error (output_file self) = Some e ->
  scan cwd fs parser dir_at open_error self st
  = (Raise e,
     {| sw := {| console :=
                   console (sw st)
                   ++ [start_banner ++ root_path self;
                       output_banner ++ output_file self ++ [10%N]];
                 parsed := parsed (sw st) |};
        file_handle := file_handle st;
        output := output st |}).
Proof.
  intros Hopen. unfold scan, sbind, lift, print, with_output.
  rewrite Hopen. cbn [sw file_handle output console parsed].
  now rewrite <- app_assoc.
Qed.

Lemma scan_raises_when_output_does_not_open_witness :
  exists e,
    Demo.read_only (output_file Demo.scanner) = Some e
    /\ scan Sample.cwd Demo.files Demo.parser Demo.dir_at Demo.read_only
         Demo.scanner (initial_scan_state initial_world (lit "old text"))
       = (Raise e,
          {| sw := {| console :=
                        [start_banner ++ lit "/proj";
                         output_banner ++ lit "project_structure.txt"
                         ++ [10%N]];
                      parsed := [] |};
             file_handle := Unset;
             output := lit "old text" |}).
Proof.
  eexists. split; [reflexivity|].
  apply (scan_raises_when_output_does_not_open Sample.cwd Demo.files
           Demo.parser Demo.dir_at Demo.read_only Demo.scanner
           (initial_scan_state initial_world (lit "old text"))).
  reflexivity.
Defined.



(** ** The level of a directory *)

Lemma startswith_nil (s : str) : startswith s [] = true.
Proof. now destruct s. Qed.

Lemma startswith_app (old rest : str) : startswith (old ++ rest) old = true.
Proof.
  induction old as [|c old IH]; simpl; [apply startswith_nil|].
  now rewrite N.eqb_refl, IH.
Qed.

(** Where [old] does not occur, [replace] changes nothing. *)
Lemma replace_loop_absent (fuel : nat) (old new : str) :
  forall s, occurs old s = false -> replace_loop fuel old new s = s.
Proof.
  induction fuel as [|fuel IH]; intros s H; [reflexivity|].
  destruct s as [|c s]; [reflexivity|].
  cbn [occurs] in H. apply orb_false_iff in H as [Hs Ho].
  cbn [replace_loop]. rewrite Hs. f_equal. now apply IH.
Qed.

Lemma replace_prefix (old rest : str) :
  old <> [] -> occurs old rest = false -> replace old [] (old ++ rest) = rest.
Proof.
  intros Hold Hrest. destruct old as [|o old]; [congruence|].
  unfold replace. rewrite length_app. cbn [length Nat.add app replace_loop].
  change (o :: old ++ rest) with ((o :: old) ++ rest).
  rewrite startswith_app. cbn [app].
  change (skipn (S (length old)) (o :: old ++ rest))
    with (skipn (length old) (old ++ rest)).
  rewrite skipn_app, skipn_all, Nat.sub_diag. cbn [app skipn].
  now apply replace_loop_absent.
Qed.

(** X15: for a directory whose path is the root path followed by [rest],
    the level [scan] indents by is the number of separators in [rest]
    (the depth below the root), provided the text of the root path does
    not occur again in [rest]. *)
Theorem level_is_depth_below_root (self : ProjectScanner) (rest : str) :
  root_path self <> [] ->
  occurs (root_path self) rest = false ->
  level_of self (root_path self ++ rest) = count_char PosixPath.sep rest.
Proof.
  intros Hroot Hrest. unfold level_of. now rewrite replace_prefix.
Qed.

Lemma level_is_depth_below_root_witness :
  level_of Demo.scanner (root_path Demo.scanner ++ lit "/pkg/sub/deep")
  = count_char PosixPath.sep (lit "/pkg/sub/deep")
  /\ count_char PosixPath.sep (lit "/pkg/sub/deep") = 3.
Proof.
  split; [|reflexivity].
  apply (level_is_depth_below_root Demo.scanner (lit "/pkg/sub/deep")).
  - discriminate.
  - reflexivity.
Defined.

(** Where the text of the root path does occur again, [replace] removes
    that occurrence too and the level falls short of the depth: under the
    root [/proj], the directory [/proj/src/proj2] lies two levels down and
    gets level 1. *)
Lemma level_falls_short_when_root_text_recurs :
  level_of Demo.scanner (lit "/proj/src/proj2") = 1
  /\ count_char PosixPath.sep (lit "/src/proj2") = 2.
Proof. split; reflexivity. Qed.

Lemma replace_loop_removes_all (c : char) (fuel : nat) :
  forall s, length s <= fuel ->
    count_char c (replace_loop fuel [c] [] s) = 0.
Proof.
  induction fuel as [|fuel IH]; intros s H.
  - destruct s; [reflexivity|simpl in H; lia].
  - destruct s as [|x s]; [reflexivity|]. simpl in H.
    cbn [replace_loop startswith]. rewrite startswith_nil, andb_true_r.
    destruct (N.eqb x c) eqn:E.
    + cbn [app length skipn]. apply IH. lia.
    + cbn [count_char]. rewrite E. apply IH. lia.
Qed.

(** X16: when the scan root is [/], the level is 0 for every directory,
    however deep: removing the root text removes every separator, so no
    folder line is indented and every file line is indented once. *)
Theorem level_is_zero_under_filesystem_root (self : ProjectScanner)
  (root : str) :
  root_path self = [PosixPath.sep] -> level_of self root = 0.
Proof.
  intros H. unfold level_of, replace. rewrite H.
  now apply replace_loop_removes_all.
Qed.

Lemma level_is_zero_under_filesystem_root_witness :
  level_of (default_scanner (lit "/") Sample.out) (lit "/usr/lib/python3") = 0.
Proof.
  apply (level_is_zero_under_filesystem_root
           (default_scanner (lit "/") Sample.out) (lit "/usr/lib/python3")).
  reflexivity.
Defined.

(* ================================================================== *)
(** * The paths of the traversal *)
(* ================================================================== *)

Lemma entry_name_inv (c : str) :
  entry_name c = true ->
  c <> [] /\ contains PosixPath.sep c = false
  /\ str_eqb c PosixPath.curdir = false /\ str_eqb c PosixPath.pardir = false.
Proof.
  unfold entry_name. intros H.
  apply andb_true_iff in H as [H Hp]. apply andb_true_iff in H as [H Hc].
  apply andb_true_iff in H as [Ht Hs].
  apply negb_true_iff in Hp, Hc, Hs.
  repeat split; try assumption. now destruct c.
Qed.

Lemma absent_not_startswith (x : char) (c : str) :
  contains x c = false -> startswith c [x] = false.
Proof.
  destruct c as [|y c]; [reflexivity|]. cbn [contains existsb startswith].
  intros H. apply orb_false_iff in H as [H _]. rewrite N.eqb_sym in H.
  now rewrite H.
Qed.

Lemma no_sep_not_startswith (c : str) :
  contains PosixPath.sep c = false -> startswith c [PosixPath.sep] = false.
Proof. apply absent_not_startswith. Qed.

(** *** Splitting *)

Lemma split_absent (x : char) (a : str) :
  contains x a = false -> split x a = [a].
Proof.
  induction a as [|y a IH]; [reflexivity|]. cbn [contains existsb split].
  intros H. apply orb_false_iff in H as [Hx Ha]. rewrite N.eqb_sym in Hx.
  rewrite Hx. unfold contains in IH. now rewrite IH.
Qed.

Lemma split_app_at (x : char) (a b : str) :
  contains x a = false -> split x (a ++ x :: b) = a :: split x b.
Proof.
  induction a as [|y a IH]; intros H.
  - cbn [app split]. now rewrite N.eqb_refl.
  - cbn [contains existsb] in H. apply orb_false_iff in H as [Hx Ha].
    rewrite N.eqb_sym in Hx. cbn [app split]. rewrite Hx.
    unfold contains in IH. now rewrite IH.
Qed.

Lemma split_repeat_at (x : char) (i : nat) (s : str) :
  split x (repeat x i ++ s) = repeat [] i ++ split x s.
Proof.
  induction i as [|i IH]; [reflexivity|].
  cbn [repeat app split]. now rewrite N.eqb_refl, IH.
Qed.

Lemma split_all_absent (x : char) (s : str) :
  Forall (fun c => contains x c = false) (split x s).
Proof.
  induction s as [|y s IH]; [repeat constructor|].
  cbn [split]. destruct (N.eqb y x) eqn:E.
  - constructor; [reflexivity|exact IH].
  - destruct (split x s) as [|h t].
    + constructor; [|constructor]. cbn [contains existsb].
      now rewrite N.eqb_sym, E.
    + inversion IH; subst. constructor; [|assumption].
      cbn [contains existsb]. rewrite N.eqb_sym, E. assumption.
Qed.

Lemma split_no_sep (a : str) :
  contains PosixPath.sep a = false -> split PosixPath.sep a = [a].
Proof. apply split_absent. Qed.

Lemma split_app_sep (a b : str) :
  contains PosixPath.sep a = false ->
  split PosixPath.sep (a ++ PosixPath.sep :: b) = a :: split PosixPath.sep b.
Proof. apply split_app_at. Qed.

Lemma split_repeat_sep (i : nat) (s : str) :
  split PosixPath.sep (repeat PosixPath.sep i ++ s)
  = repeat [] i ++ split PosixPath.sep s.
Proof. apply split_repeat_at. Qed.

Lemma split_all_no_sep (s : str) :
  Forall (fun c => contains PosixPath.sep c = false) (split PosixPath.sep s).
Proof. apply split_all_absent. Qed.

Lemma join_cons (c : str) (rest : list str) :
  rest <> [] ->
  PyStr.join [PosixPath.sep] (c :: rest)
  = c ++ PosixPath.sep :: PyStr.join [PosixPath.sep] rest.
Proof. destruct rest; [congruence|reflexivity]. Qed.

Lemma split_join (comps : list str) :
  Forall (fun c => entry_name c = true) comps -> comps <> [] ->
  split PosixPath.sep (PyStr.join [PosixPath.sep] comps) = comps.
Proof.
  induction 1 as [|c rest Hc Hrest IH]; intros Hne; [congruence|].
  apply entry_name_inv in Hc as (_ & Hsep & _).
  destruct rest as [|d rest].
  - simpl. now apply split_no_sep.
  - rewrite join_cons by discriminate.
    rewrite split_app_sep by assumption. f_equal. apply IH. discriminate.
Qed.

Lemma filter_truthy_repeat_nil (i : nat) (l : list str) :
  filter truthy (repeat [] i ++ l) = filter truthy l.
Proof. induction i as [|i IH]; [reflexivity|exact IH]. Qed.

Lemma filter_truthy_names (comps : list str) :
  Forall (fun c => entry_name c = true) comps -> filter truthy comps = comps.
Proof.
  induction 1 as [|c rest Hc _ IH]; [reflexivity|].
  apply entry_name_inv in Hc as (Hne & _). simpl.
  destruct c; [congruence|]. simpl. now rewrite IH.
Qed.

(** The components of a path in normal form are those it was built of. *)
Lemma components_of_rooted (i : nat) (comps : list str) :
  Forall (fun c => entry_name c = true) comps ->
  filter truthy (split PosixPath.sep (rooted i comps)) = comps.
Proof.
  intros H. unfold rooted. rewrite split_repeat_sep, filter_truthy_repeat_nil.
  destruct comps as [|c rest]; [reflexivity|].
  rewrite split_join by (assumption || discriminate).
  now apply filter_truthy_names.
Qed.

(** *** Normalising *)

Lemma norm_step_empty (i : nat) (nc : list str) :
  PosixPath.norm_step i nc [] = nc.
Proof. reflexivity. Qed.

Lemma norm_step_name (i : nat) (nc : list str) (c : str) :
  entry_name c = true -> PosixPath.norm_step i nc c = nc ++ [c].
Proof.
  intros H. apply entry_name_inv in H as (Hne & _ & Hcur & Hpar).
  unfold PosixPath.norm_step. rewrite Hcur, Hpar.
  destruct c; [congruence|reflexivity].
Qed.

Lemma fold_norm_names (i : nat) (cs : list str) :
  Forall (fun c => entry_name c = true) cs ->
  forall nc, fold_left (PosixPath.norm_step i) cs nc = nc ++ cs.
Proof.
  induction 1 as [|c rest Hc _ IH]; intros nc; simpl.
  - now rewrite app_nil_r.
  - rewrite norm_step_name by assumption. rewrite IH, <- app_assoc.
    reflexivity.
Qed.

Lemma fold_norm_empties (i k : nat) (l nc : list str) :
  fold_left (PosixPath.norm_step i) (repeat [] k ++ l) nc
  = fold_left (PosixPath.norm_step i) l nc.
Proof. induction k as [|k IH]; [reflexivity|exact IH]. Qed.

Lemma fold_norm_rooted (i j : nat) (comps : list str) :
  Forall (fun c => entry_name c = true) comps ->
  fold_left (PosixPath.norm_step j) (split PosixPath.sep (rooted i comps)) []
  = comps.
Proof.
  intros H. unfold rooted. rewrite split_repeat_sep, fold_norm_empties.
  destruct comps as [|c rest]; [reflexivity|].
  rewrite split_join by (assumption || discriminate).
  now rewrite fold_norm_names.
Qed.

Lemma startswith_app_nonempty (c rest : str) (x : char) :
  c <> [] -> startswith (c ++ rest) [x] = startswith c [x].
Proof.
  destruct c as [|y c]; [congruence|]. intros _.
  cbn [app startswith]. now rewrite !startswith_nil.
Qed.

Lemma join_names_not_startswith (comps : list str) :
  Forall (fun c => entry_name c = true) comps ->
  startswith (PyStr.join [PosixPath.sep] comps) [PosixPath.sep] = false.
Proof.
  intros H. destruct H as [|c rest Hc _]; [reflexivity|].
  apply entry_name_inv in Hc as (Hne & Hsep & _).
  destruct rest as [|d rest].
  - now apply no_sep_not_startswith.
  - rewrite join_cons by discriminate.
    rewrite startswith_app_nonempty by assumption.
    now apply no_sep_not_startswith.
Qed.

Lemma leading_one (x : char) (j : str) :
  startswith j [x] = false ->
  startswith (x :: j) [x] = true /\ startswith (x :: j) [x; x] = false.
Proof.
  intros H. cbn [startswith]. rewrite N.eqb_refl, startswith_nil.
  split; [reflexivity|]. exact H.
Qed.

Lemma leading_two (x : char) (j : str) :
  startswith j [x] = false ->
  startswith (x :: x :: j) [x] = true
  /\ startswith (x :: x :: j) [x; x] = true
  /\ startswith (x :: x :: j) [x; x; x] = false.
Proof.
  intros H. cbn [startswith]. rewrite !N.eqb_refl, !startswith_nil.
  repeat split. exact H.
Qed.

Lemma initial_slashes_rooted (i : nat) (comps : list str) :
  i = 1 \/ i = 2 ->
  Forall (fun c => entry_name c = true) comps ->
  PosixPath.initial_slashes (rooted i comps) = i.
Proof.
  intros Hi H. pose proof (join_names_not_startswith comps H) as Hj.
  unfold rooted, PosixPath.initial_slashes.
  destruct Hi as [-> | ->]; cbn [repeat app].
  - destruct (leading_one _ _ Hj) as [H1 H2]. now rewrite H1, H2.
  - destruct (leading_two _ _ Hj) as (H1 & H2 & H3). now rewrite H1, H2, H3.
Qed.

Lemma rooted_nonempty (i : nat) (comps : list str) :
  i = 1 \/ i = 2 -> truthy (rooted i comps) = true.
Proof. intros [-> | ->]; reflexivity. Qed.

(** A path in normal form is its own normal form. *)
Lemma normpath_rooted (i : nat) (comps : list str) :
  i = 1 \/ i = 2 ->
  Forall (fun c => entry_name c = true) comps ->
  PosixPath.normpath (rooted i comps) = rooted i comps.
Proof.
  intros Hi H. unfold PosixPath.normpath.
  rewrite (rooted_nonempty i comps Hi). cbn [negb].
  rewrite initial_slashes_rooted by assumption.
  rewrite fold_norm_rooted by assumption.
  fold (rooted i comps). now rewrite (rooted_nonempty i comps Hi).
Qed.

Lemma Forall_removelast {A : Type} (P : A -> Prop) (l : list A) :
  Forall P l -> Forall P (removelast l).
Proof.
  induction 1 as [|x l Hx Hl IH]; [constructor|].
  destruct l as [|y l]; [constructor|].
  change (removelast (x :: y :: l)) with (x :: removelast (y :: l)).
  now constructor.
Qed.

Lemma last_of_names (nc : list str) :
  Forall (fun c => entry_name c = true) nc -> nc <> [] ->
  str_eqb (last nc []) PosixPath.pardir = false.
Proof.
  intros H Hne. destruct (exists_last Hne) as (l & a & ->).
  rewrite last_last. apply Forall_app in H as [_ H].
  inversion H; subst. now apply entry_name_inv.
Qed.

Lemma norm_step_keeps_names (i : nat) (nc : list str) (c : str) :
  i <> 0 ->
  contains PosixPath.sep c = false ->
  Forall (fun c => entry_name c = true) nc ->
  Forall (fun c => entry_name c = true) (PosixPath.norm_step i nc c).
Proof.
  intros Hi Hsep Hnc. unfold PosixPath.norm_step.
  destruct (str_eqb c []) eqn:E0; [exact Hnc|].
  destruct (str_eqb c PosixPath.curdir) eqn:E1; [exact Hnc|]. cbn [orb].
  destruct (str_eqb c PosixPath.pardir) eqn:E2; cbn [negb orb].
  - apply Nat.eqb_neq in Hi. rewrite Hi. cbn [andb orb].
    destruct nc as [|x nc]; [exact Hnc|].
    rewrite (last_of_names (x :: nc)) by (assumption || discriminate).
    cbn [existsb orb andb]. now apply Forall_removelast.
  - apply Forall_app. split; [exact Hnc|]. constructor; [|constructor].
    unfold entry_name. rewrite Hsep, E1, E2.
    destruct c; [discriminate E0|reflexivity].
Qed.

Lemma fold_norm_keeps_names (i : nat) (l : list str) :
  i <> 0 ->
  Forall (fun c => contains PosixPath.sep c = false) l ->
  forall nc, Forall (fun c => entry_name c = true) nc ->
             Forall (fun c => entry_name c = true)
                    (fold_left (PosixPath.norm_step i) l nc).
Proof.
  intros Hi Hl. induction Hl as [|c l Hc _ IH]; intros nc Hnc; [exact Hnc|].
  simpl. apply IH. now apply norm_step_keeps_names.
Qed.

(** The normal form of an absolute path: one or two separators, then
    entry names joined by separators. *)
Lemma normpath_absolute (q : str) :
  PosixPath.isabs q = true ->
  exists i comps,
    (i = 1 \/ i = 2)
    /\ Forall (fun c => entry_name c = true) comps
    /\ PosixPath.normpath q = rooted i comps.
Proof.
  intros Habs.
  assert (Hi : PosixPath.initial_slashes q = 1
               \/ PosixPath.initial_slashes q = 2).
  { unfold PosixPath.initial_slashes. unfold PosixPath.isabs in Habs.
    rewrite Habs. destruct (_ && _); auto. }
  exists (PosixPath.initial_slashes q),
         (fold_left (PosixPath.norm_step (PosixPath.initial_slashes q))
                    (split PosixPath.sep q) []).
  split; [exact Hi|]. split.
  - apply fold_norm_keeps_names; [lia|apply split_all_no_sep|constructor].
  - unfold PosixPath.normpath.
    destruct q as [|x q]; [discriminate Habs|]. cbn [truthy negb].
    fold (rooted (PosixPath.initial_slashes (x :: q))
            (fold_left (PosixPath.norm_step (PosixPath.initial_slashes (x :: q)))
               (split PosixPath.sep (x :: q)) [])).
    now rewrite rooted_nonempty.
Qed.

(** *** Joining *)

Lemma endswith_snoc (s : str) (x y : char) :
  endswith (s ++ [x]) [y] = N.eqb x y.
Proof.
  unfold endswith. rewrite rev_app_distr. cbn [rev app startswith].
  now rewrite startswith_nil, andb_true_r.
Qed.

Lemma truthy_snoc (s : str) (x : char) : truthy (s ++ [x]) = true.
Proof. now destruct s. Qed.

Lemma join_snoc (comps : list str) (c : str) :
  comps <> [] ->
  PyStr.join [PosixPath.sep] (comps ++ [c])
  = PyStr.join [PosixPath.sep] comps ++ PosixPath.sep :: c.
Proof.
  induction comps as [|d comps IH]; intros Hne; [congruence|].
  destruct comps as [|e comps]; [reflexivity|].
  change ((d :: e :: comps) ++ [c]) with (d :: ((e :: comps) ++ [c])).
  rewrite join_cons by (destruct comps; discriminate).
  rewrite IH by discriminate.
  rewrite (join_cons d (e :: comps)) by discriminate.
  now rewrite <- app_assoc.
Qed.

Lemma absent_in (x : char) (l : str) (y : char) :
  contains x l = false -> In y l -> N.eqb y x = false.
Proof.
  unfold contains. intros H Hin.
  destruct (N.eqb y x) eqn:E; [|reflexivity].
  apply N.eqb_eq in E. subst y.
  assert (existsb (N.eqb x) l = true)
    by (apply existsb_exists; exists x; split; [exact Hin|apply N.eqb_refl]).
  congruence.
Qed.

Lemma join_names_last (comps : list str) :
  comps <> [] ->
  Forall (fun c => entry_name c = true) comps ->
  exists s x, PyStr.join [PosixPath.sep] comps = s ++ [x]
              /\ N.eqb x PosixPath.sep = false.
Proof.
  intros Hne H. destruct (exists_last Hne) as (init & l & ->).
  apply Forall_app in H as [_ Hl]. inversion Hl as [|? ? Hc _]; subst.
  apply entry_name_inv in Hc as (Hlne & Hsep & _).
  destruct (exists_last Hlne) as (l' & x & ->).
  assert (Hx : N.eqb x PosixPath.sep = false).
  { apply (absent_in _ (l' ++ [x])); [exact Hsep|].
    apply in_or_app. right. now left. }
  destruct init as [|d init].
  - exists l', x. split; [reflexivity|exact Hx].
  - rewrite join_snoc by discriminate.
    exists (PyStr.join [PosixPath.sep] (d :: init) ++ PosixPath.sep :: l'), x.
    split; [|exact Hx]. rewrite <- app_assoc. reflexivity.
Qed.

(** Joining an entry name to a path in normal form adds a component. *)
Lemma join_step_rooted (i : nat) (comps : list str) (c : str) :
  i <> 0 \/ comps <> [] ->
  Forall (fun c => entry_name c = true) comps ->
  entry_name c = true ->
  PosixPath.join_step (rooted i comps) c = rooted i (comps ++ [c]).
Proof.
  intros Hi Hcomps Hc.
  apply entry_name_inv in Hc as (_ & Hsep & _).
  unfold PosixPath.join_step.
  rewrite (no_sep_not_startswith c Hsep).
  destruct comps as [|d comps].
  - destruct Hi as [Hi | Hi]; [|congruence].
    destruct i as [|i]; [congruence|].
    unfold rooted. cbn [PyStr.join app]. rewrite app_nil_r.
    change (repeat PosixPath.sep (S i))
      with (PosixPath.sep :: repeat PosixPath.sep i).
    rewrite repeat_cons, endswith_snoc, N.eqb_refl.
    now rewrite truthy_snoc.
  - destruct (join_names_last (d :: comps)) as (s & x & Hj & Hx);
      [discriminate|assumption|].
    unfold rooted. rewrite join_snoc by discriminate. rewrite Hj.
    rewrite app_assoc, endswith_snoc, Hx, truthy_snoc. cbn [negb orb].
    now rewrite <- !app_assoc.
Qed.

Lemma fold_join_rooted (names : list str) :
  forall (i : nat) (comps : list str),
    i <> 0 \/ comps <> [] ->
    Forall (fun c => entry_name c = true) comps ->
    Forall (fun c => entry_name c = true) names ->
    fold_left PosixPath.join_step names (rooted i comps)
    = rooted i (comps ++ names).
Proof.
  induction names as [|c names IH]; intros i comps Hi Hcomps Hnames.
  - now rewrite app_nil_r.
  - inversion Hnames as [|? ? Hc Hrest]; subst. cbn [fold_left].
    rewrite join_step_rooted by assumption.
    rewrite IH; [now rewrite <- app_assoc| | |exact Hrest].
    + right. destruct comps; discriminate.
    + apply Forall_app. split; [exact Hcomps|]. now constructor.
Qed.

(** [os.path.join] of entry names is their text joined by separators. *)
Lemma posix_join_names (c : str) (rest : list str) :
  Forall (fun c => entry_name c = true) (c :: rest) ->
  PosixPath.join c rest = PyStr.join [PosixPath.sep] (c :: rest).
Proof.
  intros H. inversion H as [|? ? Hc Hrest]; subst.
  unfold PosixPath.join. change c with (rooted 0 [c]) at 1.
  rewrite fold_join_rooted; [reflexivity| | |exact Hrest].
  - right. discriminate.
  - now constructor.
Qed.

Lemma commonprefix_app (a b : list str) :
  PosixPath.commonprefix a (a ++ b) = a.
Proof.
  induction a as [|x a IH]; [reflexivity|].
  cbn [app PosixPath.commonprefix]. now rewrite str_eqb_refl, IH.
Qed.

Lemma isabs_rooted (i : nat) (comps : list str) :
  i = 1 \/ i = 2 -> PosixPath.isabs (rooted i comps) = true.
Proof.
  intros [-> | ->]; unfold PosixPath.isabs, rooted;
    cbn [repeat app startswith]; now rewrite N.eqb_refl, ?startswith_nil.
Qed.

Lemma abspath_rooted (cwd : str) (i : nat) (comps : list str) :
  i = 1 \/ i = 2 ->
  Forall (fun c => entry_name c = true) comps ->
  PosixPath.abspath cwd (rooted i comps) = rooted i comps.
Proof.
  intros Hi H. unfold PosixPath.abspath.
  rewrite isabs_rooted by assumption. now apply normpath_rooted.
Qed.

(** With an absolute working directory, [abspath] gives a path in normal
    form. *)
Lemma abspath_is_rooted (cwd root : str) :
  PosixPath.isabs cwd = true ->
  exists i comps,
    (i = 1 \/ i = 2)
    /\ Forall (fun c => entry_name c = true) comps
    /\ PosixPath.abspath cwd root = rooted i comps.
Proof.
  intros Hcwd. unfold PosixPath.abspath.
  destruct (PosixPath.isabs root) eqn:Hroot.
  - now apply normpath_absolute.
  - apply normpath_absolute.
    unfold PosixPath.join. cbn [fold_left]. unfold PosixPath.join_step.
    unfold PosixPath.isabs in Hroot. rewrite Hroot.
    assert (Hne : cwd <> []) by (destruct cwd; [discriminate|congruence]).
    unfold PosixPath.isabs in *.
    destruct (negb (truthy cwd) || endswith cwd [PosixPath.sep]);
      now rewrite startswith_app_nonempty.
Qed.

Lemma names_Forall (names : list str) :
  forallb entry_name names = true ->
  Forall (fun c => entry_name c = true) names.
Proof. intros H. apply Forall_forall. now apply forallb_forall. Qed.

(** The path the traversal builds from a root in normal form and entry
    names: its root-relative path and its base name. *)
Lemma rooted_path_forms (cwd : str) (i : nat) (comps names : list str) :
  i = 1 \/ i = 2 ->
  Forall (fun c => entry_name c = true) comps ->
  Forall (fun c => entry_name c = true) names ->
  names <> [] ->
  PosixPath.relpath cwd (PosixPath.join (rooted i comps) names) (rooted i comps)
  = Ok (PyStr.join [PosixPath.sep] names)
  /\ PosixPath.basename (PosixPath.join (rooted i comps) names)
     = last names [].
Proof.
  intros Hi Hcomps Hnames Hne. split.
  - unfold PosixPath.join at 1.
    rewrite fold_join_rooted by (assumption || (left; lia)).
    assert (Hall : Forall (fun c => entry_name c = true) (comps ++ names))
      by (apply Forall_app; now split).
    unfold PosixPath.relpath.
    rewrite (rooted_nonempty i (comps ++ names) Hi). cbn [negb].
    rewrite !abspath_rooted by assumption.
    rewrite !components_of_rooted by assumption.
    rewrite commonprefix_app, Nat.sub_diag. cbn [repeat app].
    rewrite skipn_app, skipn_all, Nat.sub_diag. cbn [skipn app].
    destruct names as [|n rest]; [congruence|].
    now rewrite posix_join_names.
  - destruct (exists_last Hne) as (init & l & ->).
    apply Forall_app in Hnames as [_ Hl]. inversion Hl as [|? ? Hc _]; subst.
    apply entry_name_inv in Hc as (_ & Hsep & _).
    unfold PosixPath.join. rewrite fold_left_app, last_last. cbn [fold_left].
    match goal with
    | |- PosixPath.basename (PosixPath.join_step ?d l) = l =>
        change (PosixPath.join_step d l) with (PosixPath.join d [l])
    end.
    now apply basename_join.
Qed.

(** X17: for a path made as the traversal makes it, the scan root joined
    with a chain of entry names, the root-relative path is the names
    joined by separators and the base name is the last name; the working
    directory being absolute, as [os.getcwd()] gives it. *)
Theorem traversal_path_forms (cwd root : str) (names : list str) :
  PosixPath.isabs cwd = true ->
  names <> [] ->
  forallb entry_name names = true ->
  PosixPath.relpath cwd
    (PosixPath.join (PosixPath.abspath cwd root) names)
    (PosixPath.abspath cwd root)
  = Ok (PyStr.join [PosixPath.sep] names)
  /\ PosixPath.basename (PosixPath.join (PosixPath.abspath cwd root) names)
     = last names [].
Proof.
  intros Hcwd Hne Hnames.
  destruct (abspath_is_rooted cwd root Hcwd) as (i & comps & Hi & Hcomps & ->).
  apply rooted_path_forms; auto. now apply names_Forall.
Qed.

Lemma traversal_path_forms_witness :
  PosixPath.join (PosixPath.abspath Sample.cwd (lit "../../proj/./"))
    [lit "pkg"; lit "sub"; lit "m.py"] = lit "/proj/pkg/sub/m.py"
  /\ PosixPath.relpath Sample.cwd
       (PosixPath.join (PosixPath.abspath Sample.cwd (lit "../../proj/./"))
          [lit "pkg"; lit "sub"; lit "m.py"])
       (PosixPath.abspath Sample.cwd (lit "../../proj/./"))
     = Ok (PyStr.join [PosixPath.sep] [lit "pkg"; lit "sub"; lit "m.py"])
  /\ PosixPath.basename
       (PosixPath.join (PosixPath.abspath Sample.cwd (lit "../../proj/./"))
          [lit "pkg"; lit "sub"; lit "m.py"])
     = last [lit "pkg"; lit "sub"; lit "m.py"] [].
Proof.
  split; [reflexivity|].
  apply (traversal_path_forms Sample.cwd (lit "../../proj/./")
           [lit "pkg"; lit "sub"; lit "m.py"]).
  - reflexivity.
  - discriminate.
  - reflexivity.
Defined.

Lemma joined_names_not_curdir (names : list str) :
  Forall (fun c => entry_name c = true) names -> names <> [] ->
  str_eqb (PyStr.join [PosixPath.sep] names) (lit ".") = false.
Proof.
  intros H Hne. apply str_eqb_neq. intros E.
  pose proof (split_join names H Hne) as Hs. rewrite E in Hs.
  change (split PosixPath.sep (lit ".")) with [lit "."] in Hs.
  subst names. inversion H as [|? ? Hc _]; subst. discriminate Hc.
Qed.

(** X18: on the paths of the traversal the scanner of [__init__] matches
    its patterns against two strings only: the last entry name, and the
    entry names joined by separators.  For the root joined with a chain
    of entry names, [_is_ignored] returns what the loop over the patterns
    gives on these two; it does not raise and the root exemption never
    applies. *)
Theorem is_ignored_on_traversal_path (cwd : str) (fs : str -> file_state)
  (root out : str) (w : world) (names : list str) (is_dir : bool) :
  PosixPath.isabs cwd = true ->
  names <> [] ->
  forallb entry_name names = true ->
  exists self w',
    __init__ cwd fs root out w = (Ok self, w')
    /\ _is_ignored cwd self (PosixPath.join (root_path self) names) is_dir
       = Ok (ignore_loop (last names []) (PyStr.join [PosixPath.sep] names)
               is_dir (ignore_patterns self)).
Proof.
  intros Hcwd Hne Hnames. do 2 eexists. rewrite init_run. cbv zeta.
  split; [reflexivity|]. cbn [root_path].
  destruct (abspath_is_rooted cwd root Hcwd) as (i & comps & Hi & Hcomps & E).
  rewrite E.
  destruct (rooted_path_forms cwd i comps names Hi Hcomps
              (names_Forall names Hnames) Hne) as [Hrel Hbase].
  unfold _is_ignored. cbn [root_path ignore_patterns].
  rewrite Hrel, Hbase.
  now rewrite joined_names_not_curdir by (auto using names_Forall).
Qed.

Lemma is_ignored_on_traversal_path_witness :
  exists self w',
    __init__ Sample.cwd (Sample.project [lit "src/tmp" ++ Sample.nl] Eof)
      Sample.root Sample.out initial_world = (Ok self, w')
    /\ _is_ignored Sample.cwd self
         (PosixPath.join (root_path self) [lit "src"; lit "tmp"]) true
       = Ok (ignore_loop (last [lit "src"; lit "tmp"] [])
               (PyStr.join [PosixPath.sep] [lit "src"; lit "tmp"])
               true (ignore_patterns self)).
Proof.
  apply (is_ignored_on_traversal_path Sample.cwd
           (Sample.project [lit "src/tmp" ++ Sample.nl] Eof)
           Sample.root Sample.out initial_world [lit "src"; lit "tmp"] true).
  - reflexivity.
  - discriminate.
  - reflexivity.
Defined.

(* ================================================================== *)
(** * The main block *)
(* ================================================================== *)


